(** * The action / history subsystem of the editor

    A shallow embedding of

    - [HistoryManager]  (store/editor/history/index.ts),
    - [ActionManager]   (store/editor/action, the dispatcher),
    - [StyleManager]    (store/editor/style/index.ts),

    together with the properties the specification states about them.

    JavaScript arrays are lists whose last element is the top of the
    stack ([push] appends, [pop] removes the last element).  Plain
    objects used as string-keyed records are association lists in key
    insertion order.  The only objects the source mutates in place are
    the [StyleChange] cells of an action ([value.value = ...],
    [value.type = ...] in [ActionManager.updateStyle]); they live in a
    store and actions refer to them by location, so that a cell reached
    through the undo stack and the same cell reached through the action
    being dispatched are one object. *)

From Stdlib Require Import ZArith List String Ascii Bool Lia.
From stdpp Require Import base option list strings gmap sorting.
Import ListNotations.

Local Open Scope string_scope.
Local Open Scope list_scope.

(** ** Data model (packages/models: actions, style, element) *)

(** [StyleChangeType]: [Value] is a literal, [Custom] a design-token name. *)
Inductive StyleChangeType : Type :=
| Value
| Custom.

Record StyleChange : Type := mkStyleChange {
  value : string;
  type : StyleChangeType
}.

#[global] Instance StyleChangeType_eq_dec : EqDecision StyleChangeType.
Proof. solve_decision. Defined.

#[global] Instance StyleChange_eq_dec : EqDecision StyleChange.
Proof. solve_decision. Defined.

(** A plain object with string keys, in insertion order. *)
Definition JsRecord (T : Type) : Type := list (string * T).

(** [Object.keys]. *)
Definition keys {T : Type} (r : JsRecord T) : list string := map fst r.

(** Own-property read [r[k]]: [None] is JavaScript's [undefined]. *)
Fixpoint getProp {T : Type} (r : JsRecord T) (k : string) : option T :=
  match r with
  | [] => None
  | (k', v) :: r' => if String.eqb k' k then Some v else getProp r' k
  end.

(** Property write [r[k] = v]: an existing key keeps its position. *)
Fixpoint setProp {T : Type} (r : JsRecord T) (k : string) (v : T) : JsRecord T :=
  match r with
  | [] => [(k, v)]
  | (k', v') :: r' =>
      if String.eqb k' k then (k', v) :: r' else (k', v') :: setProp r' k v
  end.

(** [Object.fromEntries]: entries are written one after the other. *)
Definition fromEntries {T : Type} (entries : list (string * T)) : JsRecord T :=
  fold_left (fun r kv => setProp r (fst kv) (snd kv)) entries [].

(** [Change<T>]: a before/after pair. *)
Record Change (T : Type) : Type := mkChange {
  original : T;
  updated : T
}.
Arguments mkChange {T} _ _.
Arguments original {T} _.
Arguments updated {T} _.

Record ActionTarget : Type := mkTarget {
  frameId : string;
  domId : string;
  oid : option string
}.

#[global] Instance ActionTarget_eq_dec : EqDecision ActionTarget.
Proof. solve_decision. Defined.

(** [StyleActionTarget extends ActionTarget].  [V] is how a [StyleChange]
    object is held: a location of the store for live actions, the
    [StyleChange] itself for a deep copy. *)
Record StyleActionTarget (V : Type) : Type := mkStyleTarget {
  target : ActionTarget;
  change : Change (JsRecord V)
}.
Arguments mkStyleTarget {V} _ _.
Arguments target {V} _.
Arguments change {V} _.

(** Where a structural edit applies; the dispatcher reads [index] only. *)
Record ActionLocation : Type := mkLocation {
  targetDomId : string;
  index : Z
}.

(** The closed set of action variants, with the payload fields the
    dispatcher destructures.  Element, container and image payloads are
    opaque to this subsystem and kept as their serialised text. *)
Inductive Action (V : Type) : Type :=
| UpdateStyle (targets : list (StyleActionTarget V))
| InsertElement (targets : list ActionTarget) (location : ActionLocation)
    (element : string) (editText : bool)
| RemoveElement (targets : list ActionTarget) (location : ActionLocation)
    (element : string)
| MoveElement (targets : list ActionTarget) (location : ActionLocation)
| EditText (targets : list ActionTarget) (originalContent newContent : string)
| GroupElements (parent : ActionTarget) (container : string)
    (children : list ActionTarget)
| UngroupElements (parent : ActionTarget) (container : string)
    (children : list ActionTarget)
| WriteCode (diffs : list string)
| InsertImage (targets : list ActionTarget) (image : string)
| RemoveImage (targets : list ActionTarget) (image : string).
Arguments UpdateStyle {V} _.
Arguments InsertElement {V} _ _ _ _.
Arguments RemoveElement {V} _ _ _.
Arguments MoveElement {V} _ _.
Arguments EditText {V} _ _ _.
Arguments GroupElements {V} _ _ _.
Arguments UngroupElements {V} _ _ _.
Arguments WriteCode {V} _.
Arguments InsertImage {V} _ _.
Arguments RemoveImage {V} _ _.

(** ** JavaScript arrays used as stacks *)

(** [Array.prototype.pop]: the removed last element ([None] on an empty
    array, which stays empty) and the array that remains. *)
Definition pop {A : Type} (l : list A) : option A * list A :=
  (last l, removelast l).

(** ** History manager (history/index.ts) *)

Module History.
Section Manager.

Context {V : Type}.

(** The three functions imported from [./helpers]. *)
Variable undoAction : Action V -> Action V.
Variable transformRedoAction : Action V -> Action V.
Variable updateTransactionActions : list (Action V) -> Action V -> list (Action V).

Inductive TransactionState : Type :=
| InTransaction (actions : list (Action V))
| NotInTransaction.

(** Calls that leave the manager: [editorEngine.code.write] and
    [sendAnalytics] (by event name). *)
Inductive Effect : Type :=
| CodeWrite (action : Action V)
| SendAnalytics (event : string).

(** The fields of the class, the trace of outgoing calls, and the
    [commitTransaction] calls that were started without being awaited:
    each is suspended inside the [push] of one action, with the
    actions its loop has still to push. *)
Record HistoryManager : Type := mkHistory {
  undoStack : list (Action V);
  redoStack : list (Action V);
  inTransaction : TransactionState;
  effects : list Effect;
  suspended : list (Action V * list (Action V))
}.

Definition canUndo (h : HistoryManager) : bool := (0 <? length (undoStack h))%nat.
Definition canRedo (h : HistoryManager) : bool := (0 <? length (redoStack h))%nat.
Definition isInTransaction (h : HistoryManager) : bool :=
  match inTransaction h with InTransaction _ => true | NotInTransaction => false end.

Definition startTransaction (h : HistoryManager) : HistoryManager :=
  mkHistory (undoStack h) (redoStack h) (InTransaction []) (effects h) (suspended h).

(** The [switch (action.type)] at the end of [push]. *)
Definition analytics (a : Action V) : list Effect :=
  match a with
  | UpdateStyle _ => [SendAnalytics "style action"]
  | InsertElement _ _ _ _ => [SendAnalytics "insert action"]
  | MoveElement _ _ => [SendAnalytics "move action"]
  | RemoveElement _ _ _ => [SendAnalytics "remove action"]
  | EditText _ _ _ => [SendAnalytics "edit text action"]
  | _ => []
  end.

(** [push] from its entry to its first suspension: everything up to
    and including the call in [await this.editorEngine.code.write].
    The flag tells whether it stopped at that [await] (it did not
    when the action went into the transaction buffer). *)
Definition push_enter (a : Action V) (h : HistoryManager) : HistoryManager * bool :=
  match inTransaction h with
  | InTransaction actions =>
      (mkHistory (undoStack h) (redoStack h)
         (InTransaction (updateTransactionActions actions a))
         (effects h) (suspended h), false)
  | NotInTransaction =>
      let redo := if (0 <? length (redoStack h))%nat then [] else redoStack h in
      (mkHistory (undoStack h ++ [a]) redo NotInTransaction
         (effects h ++ [CodeWrite a]) (suspended h), true)
  end.

(** The rest of [push], after the write has completed. *)
Definition push_resume (a : Action V) (h : HistoryManager) : HistoryManager :=
  mkHistory (undoStack h) (redoStack h) (inTransaction h)
    (effects h ++ analytics a) (suspended h).

(** [await history.push(action)]: the call run to completion. *)
Definition push (a : Action V) (h : HistoryManager) : HistoryManager :=
  let (h1, waiting) := push_enter a h in
  if waiting then push_resume a h1 else h1.

(** The loop [for (const action of actionsToCommit) await this.push(action)]
    up to its next suspension. *)
Fixpoint commit_loop (todo : list (Action V)) (h : HistoryManager)
  : HistoryManager * option (Action V * list (Action V)) :=
  match todo with
  | [] => (h, None)
  | a :: rest =>
      let (h1, waiting) := push_enter a h in
      if waiting then (h1, Some (a, rest)) else commit_loop rest h1
  end.

(** [commitTransaction] from its entry to its first suspension. *)
Definition commitTransaction_enter (h : HistoryManager)
  : HistoryManager * option (Action V * list (Action V)) :=
  let closed :=
    mkHistory (undoStack h) (redoStack h) NotInTransaction (effects h) (suspended h) in
  match inTransaction h with
  | NotInTransaction => (closed, None)
  | InTransaction [] => (closed, None)
  | InTransaction actionsToCommit => commit_loop actionsToCommit closed
  end.

(** A suspended [commitTransaction] continues: the [push] it waited in
    finishes, and the loop goes on to its next suspension. *)
Definition commit_resume (k : Action V * list (Action V)) (h : HistoryManager)
  : HistoryManager * option (Action V * list (Action V)) :=
  commit_loop (snd k) (push_resume (fst k) h).

(** [await history.commitTransaction()]: the call run to completion,
    nothing else touching the manager in between. *)
Definition commitTransaction (h : HistoryManager) : HistoryManager :=
  let closed :=
    mkHistory (undoStack h) (redoStack h) NotInTransaction (effects h) (suspended h) in
  match inTransaction h with
  | NotInTransaction => closed
  | InTransaction actionsToCommit =>
      fold_left (fun h' a => push a h') actionsToCommit closed
  end.

(** [this.commitTransaction()] as [undo] and [redo] call it: started,
    not awaited.  What remains of it is parked in [suspended]. *)
Definition commitTransaction_detached (h : HistoryManager) : HistoryManager :=
  let (h1, k) := commitTransaction_enter h in
  mkHistory (undoStack h1) (redoStack h1) (inTransaction h1) (effects h1)
    (suspended h1 ++ match k with Some c => [c] | None => [] end).

(** The event loop resumes the oldest suspended [commitTransaction]. *)
Definition resume (h : HistoryManager) : HistoryManager :=
  match suspended h with
  | [] => h
  | k :: others =>
      let (h1, k') :=
        commit_resume k
          (mkHistory (undoStack h) (redoStack h) (inTransaction h) (effects h) others) in
      mkHistory (undoStack h1) (redoStack h1) (inTransaction h1) (effects h1)
        (suspended h1 ++ match k' with Some c => [c] | None => [] end)
  end.

(** [undo]: [None] is the [null] returned when there is nothing to undo. *)
Definition undo (h : HistoryManager) : option (Action V) * HistoryManager :=
  let h1 :=
    match inTransaction h with
    | InTransaction _ => commitTransaction_detached h
    | NotInTransaction => h
    end in
  match pop (undoStack h1) with
  | (None, stack) =>
      (None, mkHistory stack (redoStack h1) (inTransaction h1) (effects h1) (suspended h1))
  | (Some top, stack) =>
      let action := undoAction top in
      (Some action,
       mkHistory stack (redoStack h1 ++ [top]) (inTransaction h1) (effects h1)
         (suspended h1))
  end.

Definition redo (h : HistoryManager) : option (Action V) * HistoryManager :=
  let h1 :=
    match inTransaction h with
    | InTransaction _ => commitTransaction_detached h
    | NotInTransaction => h
    end in
  match pop (redoStack h1) with
  | (None, stack) =>
      (None, mkHistory (undoStack h1) stack (inTransaction h1) (effects h1) (suspended h1))
  | (Some top, stack) =>
      let action := transformRedoAction top in
      (Some action,
       mkHistory (undoStack h1 ++ [action]) stack (inTransaction h1) (effects h1)
         (suspended h1))
  end.

Definition clear (h : HistoryManager) : HistoryManager :=
  mkHistory [] [] (inTransaction h) (effects h) (suspended h).

(** The actions waiting in an open transaction. *)
Definition buffered (h : HistoryManager) : list (Action V) :=
  match inTransaction h with
  | InTransaction actions => actions
  | NotInTransaction => []
  end.

End Manager.

Arguments TransactionState V : clear implicits.
Arguments HistoryManager V : clear implicits.
Arguments Effect V : clear implicits.
Arguments NotInTransaction {V}.

End History.

(** ** Element snapshots (packages/models: element) *)

Module DomElement.

(** [DomElementStyles]. *)
Record styles_t : Type := mkStyles {
  defined : JsRecord string;
  computed : JsRecord string
}.

(** [DomElement], with the fields the editor stores read. *)
Record t : Type := mk {
  domId : string;
  frameId : string;
  oid : option string;
  instanceId : option string;
  styles : option styles_t
}.

End DomElement.

(** ** Action dispatcher (ActionManager) *)

(** A location of the store of [StyleChange] objects. *)
Abbreviation loc := positive.

(** The seven mutation primitives of a frame's view. *)
Inductive ViewCall : Type :=
| CallUpdateStyle (domId : string) (change : Change (JsRecord StyleChange))
| CallInsertElement (element : string) (location : ActionLocation)
| CallRemoveElement (location : ActionLocation)
| CallMoveElement (domId : string) (index : Z)
| CallEditText (domId : string) (content : string)
| CallGroupElements (parent : ActionTarget) (container : string)
    (children : list ActionTarget)
| CallUngroupElements (parent : ActionTarget) (container : string).

(** What an awaited view call gives: a snapshot, [null], or an exception. *)
Inductive ViewResult : Type :=
| ViewReturned (domEl : option DomElement.t)
| ViewThrew (err : string).

(** What the dispatcher does to the rest of the editor, in order. *)
Inductive Event : Type :=
| ConsoleError (msg : string)
| ConsoleWarn (msg : string)
| ViewRequest (frame : string) (call : ViewCall) (result : ViewResult)
| OverlayRefresh
| SetEditorMode (mode : string)
| ElementsClick (domEls : list DomElement.t)
| RefreshDomElement (domEls : list DomElement.t)
| Uncaught (err : string).

(** ASCII lower case, for the [i] flag of a regular expression. *)
Definition toLower (c : ascii) : ascii :=
  let n := nat_of_ascii c in
  if ((65 <=? n) && (n <=? 90))%nat then ascii_of_nat (n + 32) else c.

(** [p] is a prefix of [s], letter case ignored. *)
Fixpoint prefixCI (p s : string) : bool :=
  match p, s with
  | EmptyString, _ => true
  | String a p', String b s' => Ascii.eqb (toLower a) (toLower b) && prefixCI p' s'
  | String _ _, EmptyString => false
  end.

(** [/^(#|rgb|hsl)/i.test(s)]. *)
Definition isLiteralColor (s : string) : bool :=
  prefixCI "#" s || prefixCI "rgb" s || prefixCI "hsl" s.

(** The value of [resolved] when [if (resolved)] takes the branch:
    [undefined] and the empty string are falsy. *)
Definition truthy (resolved : option string) : option string :=
  match resolved with
  | Some s => if String.eqb s "" then None else Some s
  | None => None
  end.

Module ActionManager.
Section Manager.

(** The rendered document behind the frames. *)
Variable World : Type.
(** What [editorEngine.frames.get] hands back. *)
Variable FrameData : Type.
Variable frames_get : World -> string -> option FrameData.
(** [frameData.view.<primitive>(...)], awaited. *)
Variable view : FrameData -> ViewCall -> World -> ViewResult * World.
(** [editorEngine.theme.getColorByName], the token resolver. *)
Variable getColorByName : string -> option string.

Record Editor : Type := mkEditor {
  world : World;
  store : gmap loc StyleChange;
  trace : list Event
}.

(** How a handler ends: it ran to its end, it left through a
    [return], or an exception escaped it. *)
Inductive Outcome (R : Type) : Type :=
| Completed (result : R) (st : Editor)
| Returned (st : Editor)
| Rejected (err : string) (st : Editor).
Arguments Completed {R} _ _.
Arguments Returned {R} _.
Arguments Rejected {R} _ _.

Definition emit (e : Event) (st : Editor) : Editor :=
  mkEditor (world st) (store st) (trace st ++ [e]).

Definition setStore (s : gmap loc StyleChange) (st : Editor) : Editor :=
  mkEditor (world st) s (trace st).

Definition callView (frame : string) (frameData : FrameData) (call : ViewCall)
    (st : Editor) : ViewResult * Editor :=
  let (r, w) := view frameData call (world st) in
  (r, mkEditor w (store st) (trace st ++ [ViewRequest frame call r])).

(** The state an outcome leaves. *)
Definition final {R : Type} (o : Outcome R) : Editor :=
  match o with
  | Completed _ st => st
  | Returned st => st
  | Rejected err st => emit (Uncaught err) st
  end.

(** The body of the [.map(([key, value]) => ...)] callback of
    [updateStyle]: [value] is the object at location [l]. *)
Definition convertEntry (kv : string * loc) (st : Editor) : (string * loc) * Editor :=
  let (key, l) := kv in
  match store st !! l with
  | Some v =>
      match type v with
      | Custom =>
          match truthy (getColorByName (value v)) with
          | Some resolved =>
              ((key, l), setStore (<[l := mkStyleChange resolved Value]> (store st)) st)
          | None =>
              if isLiteralColor (value v)
              then ((key, l), setStore (<[l := mkStyleChange (value v) Value]> (store st)) st)
              else ((key, l), emit (ConsoleWarn ("Unknown design token: " +:+ value v)) st)
          end
      | Value => ((key, l), st)
      end
  | None => ((key, l), st)
  end.

(** [Object.entries(record).map(callback)], left to right. *)
Fixpoint mapEntries (entries : list (string * loc)) (st : Editor)
  : list (string * loc) * Editor :=
  match entries with
  | [] => ([], st)
  | kv :: rest =>
      let (kv', st1) := convertEntry kv st in
      let (rest', st2) := mapEntries rest st1 in
      (kv' :: rest', st2)
  end.

(** A deep copy of a record of [StyleChange] objects. *)
Definition cloneRecord (s : gmap loc StyleChange) (r : JsRecord loc)
  : JsRecord StyleChange :=
  omap (fun kv => pair (fst kv) <$> s !! snd kv) r.

(** lodash [cloneDeep] on a change. *)
Definition cloneDeep (s : gmap loc StyleChange) (c : Change (JsRecord loc))
  : Change (JsRecord StyleChange) :=
  mkChange (cloneRecord s (original c)) (cloneRecord s (updated c)).

Fixpoint updateStyle_loop (targets : list (StyleActionTarget loc))
    (domEls : list DomElement.t) (st : Editor) : Outcome (list DomElement.t) :=
  match targets with
  | [] => Completed domEls st
  | t :: rest =>
      match frames_get (world st) (frameId (target t)) with
      | None => Returned (emit (ConsoleError "Failed to get frameView") st)
      | Some frameData =>
          let (entries, st1) := mapEntries (updated (change t)) st in
          let convertedChange := fromEntries entries in
          let change' := mkChange (original (change t)) convertedChange in
          let (r, st2) :=
            callView (frameId (target t)) frameData
              (CallUpdateStyle (domId (target t)) (cloneDeep (store st1) change')) st1 in
          match r with
          | ViewThrew err => Rejected err st2
          | ViewReturned None =>
              updateStyle_loop rest domEls (emit (ConsoleError "Failed to update style") st2)
          | ViewReturned (Some domEl) => updateStyle_loop rest (domEls ++ [domEl]) st2
          end
      end
  end.

(** [updateStyle]: the loop, then the (debounced) refresh with the
    snapshots collected. *)
Definition updateStyle (targets : list (StyleActionTarget loc)) (st : Editor)
  : Outcome unit :=
  match updateStyle_loop targets [] st with
  | Completed domEls st' => Completed tt (emit (RefreshDomElement domEls) st')
  | Returned st' => Returned st'
  | Rejected err st' => Rejected err st'
  end.

Definition refreshAndClickMutatedElement (domEl : DomElement.t) (st : Editor) : Editor :=
  emit (ElementsClick [domEl]) (emit (SetEditorMode "design") st).

Fixpoint insertElement (targets : list ActionTarget) (element : string)
    (location : ActionLocation) (st : Editor) : Outcome unit :=
  match targets with
  | [] => Completed tt st
  | elementMetadata :: rest =>
      match frames_get (world st) (frameId elementMetadata) with
      | None => Returned (emit (ConsoleError "Failed to get frameView") st)
      | Some frameView =>
          let (r, st1) :=
            callView (frameId elementMetadata) frameView
              (CallInsertElement element location) st in
          match r with
          | ViewThrew err =>
              insertElement rest element location
                (emit (ConsoleError ("Error inserting element: " +:+ err)) st1)
          | ViewReturned None => Returned (emit (ConsoleError "Failed to insert element") st1)
          | ViewReturned (Some domEl) =>
              insertElement rest element location (refreshAndClickMutatedElement domEl st1)
          end
      end
  end.

Fixpoint removeElement (targets : list ActionTarget) (location : ActionLocation)
    (st : Editor) : Outcome unit :=
  match targets with
  | [] => Completed tt st
  | t :: rest =>
      match frames_get (world st) (frameId t) with
      | None => Returned (emit (ConsoleError "Failed to get frameView") st)
      | Some frameView =>
          let (r, st1) := callView (frameId t) frameView (CallRemoveElement location) st in
          match r with
          | ViewThrew err => Rejected err st1
          | ViewReturned None => Returned (emit (ConsoleError "Failed to remove element") st1)
          | ViewReturned (Some domEl) =>
              removeElement rest location
                (refreshAndClickMutatedElement domEl (emit OverlayRefresh st1))
          end
      end
  end.

Fixpoint moveElement (targets : list ActionTarget) (location : ActionLocation)
    (st : Editor) : Outcome unit :=
  match targets with
  | [] => Completed tt st
  | t :: rest =>
      match frames_get (world st) (frameId t) with
      | None => Returned (emit (ConsoleError "Failed to get frameView") st)
      | Some frameView =>
          let (r, st1) :=
            callView (frameId t) frameView (CallMoveElement (domId t) (index location)) st in
          match r with
          | ViewThrew err => Rejected err st1
          | ViewReturned None => Returned (emit (ConsoleError "Failed to move element") st1)
          | ViewReturned (Some domEl) =>
              moveElement rest location (refreshAndClickMutatedElement domEl st1)
          end
      end
  end.

Fixpoint editText (targets : list ActionTarget) (newContent : string)
    (st : Editor) : Outcome unit :=
  match targets with
  | [] => Completed tt st
  | t :: rest =>
      match frames_get (world st) (frameId t) with
      | None => Returned (emit (ConsoleError "Failed to get frameView") st)
      | Some frameView =>
          let (r, st1) :=
            callView (frameId t) frameView (CallEditText (domId t) newContent) st in
          match r with
          | ViewThrew err => Rejected err st1
          | ViewReturned None => Returned (emit (ConsoleError "Failed to edit text") st1)
          | ViewReturned (Some domEl) =>
              editText rest newContent (refreshAndClickMutatedElement domEl st1)
          end
      end
  end.

Definition groupElements (parent : ActionTarget) (container : string)
    (children : list ActionTarget) (st : Editor) : Outcome unit :=
  match frames_get (world st) (frameId parent) with
  | None => Returned (emit (ConsoleError "Failed to get frameView") st)
  | Some frameView =>
      let (r, st1) :=
        callView (frameId parent) frameView
          (CallGroupElements parent container children) st in
      match r with
      | ViewThrew err => Rejected err st1
      | ViewReturned None => Returned (emit (ConsoleError "Failed to group elements") st1)
      | ViewReturned (Some domEl) => Completed tt (refreshAndClickMutatedElement domEl st1)
      end
  end.

Definition ungroupElements (parent : ActionTarget) (container : string)
    (st : Editor) : Outcome unit :=
  match frames_get (world st) (frameId parent) with
  | None => Returned (emit (ConsoleError "Failed to get frameView") st)
  | Some frameView =>
      let (r, st1) :=
        callView (frameId parent) frameView (CallUngroupElements parent container) st in
      match r with
      | ViewThrew err => Rejected err st1
      | ViewReturned None => Returned (emit (ConsoleError "Failed to ungroup elements") st1)
      | ViewReturned (Some domEl) => Completed tt (refreshAndClickMutatedElement domEl st1)
      end
  end.

(** [insertImage] and [removeImage]: a [forEach] whose callback only
    looks the frame up; its [return] ends one callback, not the loop. *)
Fixpoint forEachImageTarget (targets : list ActionTarget) (st : Editor) : Editor :=
  match targets with
  | [] => st
  | t :: rest =>
      match frames_get (world st) (frameId t) with
      | None => forEachImageTarget rest (emit (ConsoleError "Failed to get frameView") st)
      | Some _ => forEachImageTarget rest st
      end
  end.

Definition insertImage (targets : list ActionTarget) (st : Editor) : Outcome unit :=
  Completed tt (forEachImageTarget targets st).

Definition removeImage (targets : list ActionTarget) (st : Editor) : Outcome unit :=
  Completed tt (forEachImageTarget targets st).

(** [dispatch]: one branch per variant.  A handler that [return]s has
    returned to [dispatch], which then completes. *)
Definition dispatch (action : Action loc) (st : Editor) : Outcome unit :=
  let handled :=
    match action with
    | UpdateStyle targets => updateStyle targets st
    | InsertElement targets location element _ => insertElement targets element location st
    | RemoveElement targets location _ => removeElement targets location st
    | MoveElement targets location => moveElement targets location st
    | EditText targets _ newContent => editText targets newContent st
    | GroupElements parent container children => groupElements parent container children st
    | UngroupElements parent container _ => ungroupElements parent container st
    | WriteCode _ => Completed tt st
    | InsertImage targets _ => insertImage targets st
    | RemoveImage targets _ => removeImage targets st
    end in
  match handled with
  | Completed _ st' => Completed tt st'
  | Returned st' => Completed tt st'
  | Rejected err st' => Rejected err st'
  end.

(** The view requests of a trace, in order. *)
Definition requests (tr : list Event) : list (string * ViewCall) :=
  omap (fun e => match e with ViewRequest f c _ => Some (f, c) | _ => None end) tr.

(** The snapshots handed to the selection layer, in order. *)
Definition snapshots (tr : list Event) : list DomElement.t :=
  flat_map (fun e =>
    match e with
    | ElementsClick els => els
    | RefreshDomElement els => els
    | _ => []
    end) tr.

(** *** The runner: [run], [undo], [redo] *)

Variable undoAction : Action loc -> Action loc.
Variable transformRedoAction : Action loc -> Action loc.
Variable updateTransactionActions :
  list (Action loc) -> Action loc -> list (Action loc).

(** [editorEngine]: the history manager and the rest of the editor.
    Both hold actions by reference into the one [store]. *)
Record Engine : Type := mkEngine {
  history : History.HistoryManager loc;
  editor : Editor
}.

(** Calls to the code writer and to analytics made by the runner
    itself join the same trace as the history manager's. *)
Definition record (es : list (History.Effect loc)) (h : History.HistoryManager loc)
  : History.HistoryManager loc :=
  History.mkHistory (History.undoStack h) (History.redoStack h)
    (History.inTransaction h) (History.effects h ++ es) (History.suspended h).

(** [run]: [await history.push(action); await this.dispatch(action)]. *)
Definition run (action : Action loc) (e : Engine) : Engine :=
  let h := History.push updateTransactionActions action (history e) in
  mkEngine h (final (dispatch action (editor e))).

Definition undo (e : Engine) : Engine :=
  match History.undo undoAction updateTransactionActions (history e) with
  | (None, h) => mkEngine h (editor e)
  | (Some action, h) =>
      match dispatch action (editor e) with
      | Rejected err st => mkEngine h (emit (Uncaught err) st)
      | o =>
          mkEngine
            (record [History.CodeWrite action; History.SendAnalytics "undo"] h)
            (final o)
      end
  end.

Definition redo (e : Engine) : Engine :=
  match History.redo transformRedoAction updateTransactionActions (history e) with
  | (None, h) => mkEngine h (editor e)
  | (Some action, h) =>
      match dispatch action (editor e) with
      | Rejected err st => mkEngine h (emit (Uncaught err) st)
      | o =>
          mkEngine
            (record [History.CodeWrite action; History.SendAnalytics "redo"] h)
            (final o)
      end
  end.

(** [clear]. *)
Definition clear (e : Engine) : Engine :=
  mkEngine (History.clear (history e)) (editor e).

End Manager.

Arguments Completed {World R} _ _.
Arguments Returned {World R} _.
Arguments Rejected {World R} _ _.
Arguments mkEditor {World} _ _ _.
Arguments world {World} _.
Arguments store {World} _.
Arguments trace {World} _.
Arguments emit {World} _ _.
Arguments final {World R} _.
Arguments mkEngine {World} _ _.
Arguments history {World} _.
Arguments editor {World} _.

End ActionManager.

(** ** Actions in the store *)

(** A new object: a location the store does not use yet. *)
Definition allocCell (v : StyleChange) (s : gmap loc StyleChange)
  : loc * gmap loc StyleChange :=
  let l := fresh (dom s) in (l, <[l := v]> s).

Fixpoint allocRecord (r : JsRecord StyleChange) (s : gmap loc StyleChange)
  : JsRecord loc * gmap loc StyleChange :=
  match r with
  | [] => ([], s)
  | (k, v) :: r' =>
      let (l, s1) := allocCell v s in
      let (r'', s2) := allocRecord r' s1 in
      ((k, l) :: r'', s2)
  end.

Fixpoint allocTargets (ts : list (StyleActionTarget StyleChange))
    (s : gmap loc StyleChange)
  : list (StyleActionTarget loc) * gmap loc StyleChange :=
  match ts with
  | [] => ([], s)
  | t :: ts' =>
      let (o, s1) := allocRecord (original (change t)) s in
      let (u, s2) := allocRecord (updated (change t)) s1 in
      let (ts'', s3) := allocTargets ts' s2 in
      (mkStyleTarget (target t) (mkChange o u) :: ts'', s3)
  end.

(** An action written as nested object literals comes to life: each
    [StyleChange] literal becomes an object of its own. *)
Definition allocAction (a : Action StyleChange) (s : gmap loc StyleChange)
  : Action loc * gmap loc StyleChange :=
  match a with
  | UpdateStyle ts => let (ts', s') := allocTargets ts s in (UpdateStyle ts', s')
  | InsertElement ts l e t => (InsertElement ts l e t, s)
  | RemoveElement ts l e => (RemoveElement ts l e, s)
  | MoveElement ts l => (MoveElement ts l, s)
  | EditText ts o n => (EditText ts o n, s)
  | GroupElements p c ch => (GroupElements p c ch, s)
  | UngroupElements p c ch => (UngroupElements p c ch, s)
  | WriteCode d => (WriteCode d, s)
  | InsertImage ts i => (InsertImage ts i, s)
  | RemoveImage ts i => (RemoveImage ts i, s)
  end.


(** ** Style manager (style/index.ts) *)

Module StyleManager.

Inductive StyleMode : Type :=
| InstanceMode
| RootMode.

(** The part of [editorEngine] the style manager reads. *)
Record EditorEngine : Type := mkEngine {
  selected : list DomElement.t
}.

Record t : Type := mk {
  editorEngine : option EditorEngine;
  mode : StyleMode
}.

(** The table of [getDefaultStyleValue]. *)
Definition defaults : JsRecord string :=
  [ ("opacity", "1");
    ("visibility", "visible");
    ("display", "block");
    ("color", "rgb(0, 0, 0)");
    ("backgroundColor", "rgba(0, 0, 0, 0)");
    ("fontSize", "16px");
    ("fontWeight", "400");
    ("lineHeight", "normal");
    ("textAlign", "start");
    ("width", "auto");
    ("height", "auto");
    ("margin", "0px");
    ("padding", "0px");
    ("border", "0px none rgb(0, 0, 0)");
    ("borderRadius", "0px");
    ("marginTop", "0px");
    ("marginRight", "0px");
    ("marginBottom", "0px");
    ("marginLeft", "0px");
    ("paddingTop", "0px");
    ("paddingRight", "0px");
    ("paddingBottom", "0px");
    ("paddingLeft", "0px");
    ("top", "auto");
    ("right", "auto");
    ("bottom", "auto");
    ("left", "auto");
    ("position", "static");
    ("zIndex", "auto");
    ("transform", "none");
    ("transformOrigin", "50% 50% 0px");
    ("boxShadow", "none");
    ("textDecoration", "none solid rgb(0, 0, 0)");
    ("textDecorationLine", "none");
    ("textTransform", "none");
    ("letterSpacing", "normal");
    ("wordSpacing", "normal");
    ("fontFamily", "inherit");
    ("fontStyle", "normal");
    ("fontVariant", "normal");
    ("borderWidth", "0px");
    ("borderStyle", "none");
    ("borderColor", "rgb(0, 0, 0)");
    ("borderTopWidth", "0px");
    ("borderRightWidth", "0px");
    ("borderBottomWidth", "0px");
    ("borderLeftWidth", "0px") ].

(** A string in a condition: [undefined] and [''] are falsy. *)
Definition nonEmpty (v : option string) : option string :=
  match v with
  | Some s => if String.eqb s "" then None else Some s
  | None => None
  end.

(** [defaults[style] || 'initial'].  Style names are CSS property
    names, so the read never reaches the object's prototype. *)
Definition getDefaultStyleValue (style : string) : string :=
  match nonEmpty (getProp defaults style) with
  | Some v => v
  | None => "initial"
  end.

Definition getFreshStyleValue (selectedEl : DomElement.t) (style : string) : string :=
  let definedValue :=
    match DomElement.styles selectedEl with
    | Some st => getProp (DomElement.defined st) style
    | None => None
    end in
  let computedValue :=
    match DomElement.styles selectedEl with
    | Some st => getProp (DomElement.computed st) style
    | None => None
    end in
  let currentValue :=
    match definedValue with
    | Some v => Some v
    | None => computedValue
    end in
  match nonEmpty currentValue with
  | Some v => v
  | None => getDefaultStyleValue style
  end.

(** [domIds.includes(el.domId)]. *)
Definition includes (domIds : list string) (d : string) : bool :=
  existsb (String.eqb d) domIds.

(** [getUpdateStyleAction(styles, domIds, type)].  [styles] gives each
    property its value already rendered by [toString], or [None] for
    an [undefined] value.  The result is the object literal the
    function builds: every [StyleChange] in it is a new object. *)
Definition getUpdateStyleAction (m : t) (styles : JsRecord (option string))
    (domIds : list string) (type : StyleChangeType) : Action StyleChange :=
  match editorEngine m with
  | None => UpdateStyle []
  | Some engine =>
      let filteredSelected :=
        if (0 <? length domIds)%nat
        then filter (fun el => includes domIds (DomElement.domId el)) (selected engine)
        else selected engine in
      let targets :=
        map (fun selectedEl =>
          let change :=
            {| updated :=
                 fromEntries
                   (map (fun style =>
                      let value :=
                        match getProp styles style with
                        | Some (Some v) => v
                        | _ => ""
                        end in
                      (style,
                       mkStyleChange value
                         (match type with Custom => Custom | Value => Value end)))
                      (keys styles));
               original :=
                 fromEntries
                   (map (fun style =>
                      let currentValue := getFreshStyleValue selectedEl style in
                      (style, mkStyleChange currentValue Value))
                      (keys styles)) |} in
          mkStyleTarget
            (mkTarget (DomElement.frameId selectedEl) (DomElement.domId selectedEl)
               (match mode m with
                | InstanceMode => DomElement.instanceId selectedEl
                | RootMode => DomElement.oid selectedEl
                end))
            change)
          filteredSelected in
      UpdateStyle targets
  end.

End StyleManager.

(** ** Transaction coalescing (history/helpers.ts) *)

Module Helpers.
Section Merge.

Context {V : Type}.

(** Two style actions address the same set of
    [{frameId, domId, styleTargetId}] triples. *)
Definition sameTargets (old new : list (StyleActionTarget V)) : bool :=
  forallb (fun t => existsb (fun t' => bool_decide (target t' = target t)) new) old
  && forallb (fun t' => existsb (fun t => bool_decide (target t = target t')) old) new.

(** The buffered targets keep their [original] half and take the
    [updated] half of the incoming action's matching target. *)
Definition mergeUpdated (old new : list (StyleActionTarget V))
  : list (StyleActionTarget V) :=
  map (fun t =>
    match find (fun t' => bool_decide (target t' = target t)) new with
    | Some t' =>
        mkStyleTarget (target t)
          (mkChange (original (change t)) (updated (change t')))
    | None => t
    end) old.

(** Modelled from the spec: [updateTransactionActions] of
    history/helpers.ts, which is not among the sources.  Section 4.2:
    if the buffer's last entry and the incoming action are consecutive
    [UpdateStyle] actions on the same [{frameId, domId, styleTargetId}]
    set, the last entry's [updated] half is replaced by the incoming
    one and its [original] half is kept; otherwise the incoming action
    is appended as a new buffer entry. *)
Definition updateTransactionActions (actions : list (Action V)) (a : Action V)
  : list (Action V) :=
  match pop actions, a with
  | (Some (UpdateStyle old), init), UpdateStyle new =>
      if sameTargets old new
      then init ++ [UpdateStyle (mergeUpdated old new)]
      else actions ++ [a]
  | _, _ => actions ++ [a]
  end.

End Merge.
End Helpers.

(** The targets of a style action (no targets for the other variants). *)
Definition styleTargets {V : Type} (a : Action V) : list (StyleActionTarget V) :=
  match a with
  | UpdateStyle ts => ts
  | _ => []
  end.

(** ** The specification's reading of a literal style value *)

Definition isDigit (c : ascii) : bool :=
  let n := nat_of_ascii c in ((48 <=? n) && (n <=? 57))%nat.

Fixpoint dropDigits (s : string) : string :=
  match s with
  | String c s' => if isDigit c then dropDigits s' else s
  | EmptyString => s
  end.

(** A literal length: digits followed by a CSS length unit. *)
Definition isLiteralLength (s : string) : bool :=
  match s with
  | String c _ =>
      isDigit c
      && existsb (String.eqb (dropDigits s)) ["px"; "em"; "rem"; "%"; "vh"; "vw"; "pt"]
  | EmptyString => false
  end.

(** Section 4.1 words the second case of token resolution as "the raw
    string matches a literal-color/length syntax". *)
Definition specLiteralSyntax (s : string) : bool :=
  isLiteralColor s || isLiteralLength s.

(** ** A small editor to run the definitions on *)

Module Sample.

(** Two frames are mounted; the document itself is not modelled. *)
Definition frames_get (w : unit) (frame : string) : option string :=
  if existsb (String.eqb frame) ["frame-1"; "frame-2"] then Some frame else None.

Definition snapshot (frame dom : string) : DomElement.t :=
  DomElement.mk dom frame None None None.

(** Every primitive succeeds, except on the element ["detached"]. *)
Definition view (frame : string) (call : ViewCall) (w : unit) : ViewResult * unit :=
  match call with
  | CallUpdateStyle d _ | CallMoveElement d _ | CallEditText d _ =>
      if String.eqb d "detached" then (ViewReturned None, w)
      else (ViewReturned (Some (snapshot frame d)), w)
  | CallRemoveElement l | CallInsertElement _ l =>
      if String.eqb (targetDomId l) "detached" then (ViewReturned None, w)
      else (ViewReturned (Some (snapshot frame (targetDomId l))), w)
  | CallGroupElements p _ _ | CallUngroupElements p _ =>
      (ViewReturned (Some (snapshot frame (domId p))), w)
  end.

(** The theme knows one colour token. *)
Definition getColorByName (name : string) : option string :=
  if String.eqb name "primary" then Some "#112233" else None.

Definition editor0 : ActionManager.Editor unit := ActionManager.mkEditor tt ∅ [].

Definition history0 {V : Type} : History.HistoryManager V :=
  History.mkHistory [] [] History.NotInTransaction [] [].

Definition dispatch := ActionManager.dispatch unit string frames_get view getColorByName.

Definition run :=
  ActionManager.run unit string frames_get view getColorByName
    Helpers.updateTransactionActions.

Definition target1 : ActionTarget := mkTarget "frame-1" "el-1" (Some "oid-1").
Definition target2 : ActionTarget := mkTarget "frame-2" "el-2" (Some "oid-2").
Definition targetGone : ActionTarget := mkTarget "frame-9" "el-9" (Some "oid-9").
Definition targetDetached : ActionTarget := mkTarget "frame-1" "detached" None.

Definition colorChange (from to : string) (ty : StyleChangeType)
  : Change (JsRecord StyleChange) :=
  mkChange [("color", mkStyleChange from Value)] [("color", mkStyleChange to ty)].

End Sample.

(** A style action on a single target. *)
Definition styleActionOn {V : Type} (k : ActionTarget) (c : Change (JsRecord V))
  : Action V :=
  UpdateStyle [mkStyleTarget k c].

(** [startTransaction()], then [await push(a)] for each action in turn,
    then [await commitTransaction()]. *)
Definition transact {V : Type}
    (updateTransactionActions : list (Action V) -> Action V -> list (Action V))
    (acts : list (Action V)) (h : History.HistoryManager V)
  : History.HistoryManager V :=
  History.commitTransaction updateTransactionActions
    (fold_left (fun h' a => History.push updateTransactionActions a h') acts
       (History.startTransaction h)).

(** The content a [StyleChange] object has once the callback of
    [updateStyle] has visited it. *)
Definition visited (getColorByName : string -> option string) (v : StyleChange)
  : StyleChange :=
  match type v with
  | Value => v
  | Custom =>
      match truthy (getColorByName (value v)) with
      | Some resolved => mkStyleChange resolved Value
      | None => if isLiteralColor (value v) then mkStyleChange (value v) Value else v
      end
  end.

(** The warning the callback prints on visiting an object with content [v]. *)
Definition warning (getColorByName : string -> option string) (v : StyleChange)
  : list Event :=
  match type v, truthy (getColorByName (value v)) with
  | Custom, None =>
      if isLiteralColor (value v) then []
      else [ConsoleWarn ("Unknown design token: " +:+ value v)]
  | _, _ => []
  end.

(** The [updateStyle] requests of a trace: frame and element, in order. *)
Definition styleRequests (tr : list Event) : list (string * string) :=
  omap (fun e =>
    match e with
    | ViewRequest f (CallUpdateStyle d _) _ => Some (f, d)
    | _ => None
    end) tr.

(** The snapshots the view calls of a trace returned, in order. *)
Definition returned (tr : list Event) : list DomElement.t :=
  flat_map (fun e =>
    match e with
    | ViewRequest _ _ (ViewReturned (Some domEl)) => [domEl]
    | _ => []
    end) tr.

(** A handler did not let an exception escape. *)
Definition settled {World R : Type} (o : ActionManager.Outcome World R) : Prop :=
  match o with
  | ActionManager.Rejected _ _ => False
  | _ => True
  end.

(** The view does not throw. *)
Definition quiet {World FrameData : Type}
    (view : FrameData -> ViewCall -> World -> ViewResult * World) : Prop :=
  forall frameData call w err, fst (view frameData call w) <> ViewThrew err.

(** ** Style manager: the cached styles (style/index.ts) *)

(** Object spread [{...a, ...b}]: the properties of [a], then those of
    [b] written over them one after the other. *)
Definition spread {T : Type} (a b : JsRecord T) : JsRecord T :=
  fold_left (fun r kv => setProp r (fst kv) (snd kv)) b a.

(** The order [toSorted()] sorts strings by. *)
Definition codeUnitLe (a b : string) : Prop := String.leb a b = true.

#[global] Instance codeUnitLe_dec (a b : string) : Decision (codeUnitLe a b).
Proof. unfold codeUnitLe. apply _. Defined.

(** [ids.toSorted().join()]. *)
Definition sortedJoin (ids : list string) : string :=
  String.concat "," (merge_sort codeUnitLe ids).

Module StyleCache.
Section Cache.

(** [DOMRect], and the two rectangles of a [DomElement] the cache
    copies: [selectedEl.rect] and [selectedEl.parent?.rect]. *)
Variable DOMRect : Type.
Variable emptyRect : DOMRect.
Variable rectOf : DomElement.t -> option DOMRect.
Variable parentRectOf : DomElement.t -> option DOMRect.

(** The [styles] object of a cached style: [defined], [computed], and
    the properties [updateStyleNoAction] spreads in beside them.  A CSS
    property is named neither [defined] nor [computed]. *)
Record Styles : Type := mkStyles {
  defined : JsRecord string;
  computed : JsRecord string;
  assigned : JsRecord (option string)
}.

(** [SelectedStyle]. *)
Record SelectedStyle : Type := mkSelectedStyle {
  styles : Styles;
  parentRect : DOMRect;
  rect : DOMRect
}.

(** The fields of [StyleManager]; [editorEngine] and [mode] are those
    of [StyleManager.t]. *)
Record t : Type := mk {
  manager : StyleManager.t;
  selectedStyle : option SelectedStyle;
  domIdToStyle : gmap string SelectedStyle;
  prevSelected : string
}.

(** [{...selectedStyle, styles: {...selectedStyle.styles, ...styles}}]. *)
Definition withStyles (css : JsRecord (option string)) (c : SelectedStyle)
  : SelectedStyle :=
  mkSelectedStyle
    (mkStyles (defined (styles c)) (computed (styles c))
       (spread (assigned (styles c)) css))
    (parentRect c) (rect c).

(** [updateStyleNoAction]: every entry of the map is set again to the
    style with the properties spread in, then the selected style. *)
Definition updateStyleNoAction (css : JsRecord (option string)) (s : t) : t :=
  mk (manager s)
    (match selectedStyle s with
     | None => None
     | Some c => Some (withStyles css c)
     end)
    (withStyles css <$> domIdToStyle s)
    (prevSelected s).

(** The cached style built for a selected element. *)
Definition styleOf (selectedEl : DomElement.t) : SelectedStyle :=
  mkSelectedStyle
    (match DomElement.styles selectedEl with
     | Some st => mkStyles (DomElement.defined st) (DomElement.computed st) []
     | None => mkStyles [] [] []
     end)
    (match parentRectOf selectedEl with Some r => r | None => emptyRect end)
    (match rectOf selectedEl with Some r => r | None => emptyRect end).

(** [onSelectedElementsChanged], the reaction to a change of
    [editorEngine.elements.selected]. *)
Definition onSelectedElementsChanged (selectedElements : list DomElement.t) (s : t) : t :=
  let newSelected := sortedJoin (map DomElement.domId selectedElements) in
  let mode :=
    if String.eqb newSelected (prevSelected s)
    then StyleManager.mode (manager s)
    else StyleManager.RootMode in
  let manager' := StyleManager.mk (StyleManager.editorEngine (manager s)) mode in
  match selectedElements with
  | [] => mk manager' (selectedStyle s) ∅ newSelected
  | first :: _ =>
      let newMap :=
        fold_left (fun m selectedEl =>
                     <[DomElement.domId selectedEl := styleOf selectedEl]> m)
          selectedElements ∅ in
      mk manager' (Some (styleOf first)) newMap newSelected
  end.

(** [clear]. *)
Definition clear (s : t) : t :=
  mk (StyleManager.mk (StyleManager.editorEngine (manager s)) StyleManager.RootMode)
    None ∅ "".

End Cache.

End StyleCache.

(** ** Style manager: the update commands (style/index.ts) *)

Module Editing.
Section Commands.

Variable World : Type.
Variable FrameData : Type.
Variable frames_get : World -> string -> option FrameData.
Variable view : FrameData -> ViewCall -> World -> ViewResult * World.
Variable getColorByName : string -> option string.
Variable updateTransactionActions :
  list (Action loc) -> Action loc -> list (Action loc).
Variable DOMRect : Type.

(** The style manager and the engine its [editorEngine] field refers to. *)
Record App : Type := mkApp {
  style : StyleCache.t DOMRect;
  engine : ActionManager.Engine World
}.

(** The common body of [updateMultiple] and [updateCustom]: build the
    action, hand it to [editorEngine.action.run], update the cached
    styles.  [run] is not awaited; it touches the history and the
    editor only, [updateStyleNoAction] the style manager only, so the
    call is taken to completion here.  [None] is the [TypeError] of
    reading [this.editorEngine.action] with no engine. *)
Definition applyStyles (css : JsRecord (option string)) (domIds : list string)
    (ty : StyleChangeType) (app : App) : option App :=
  match StyleManager.editorEngine (StyleCache.manager DOMRect (style app)) with
  | None => None
  | Some _ =>
      let action :=
        StyleManager.getUpdateStyleAction (StyleCache.manager DOMRect (style app))
          css domIds ty in
      let (a, s) :=
        allocAction action (ActionManager.store (ActionManager.editor (engine app))) in
      let e :=
        ActionManager.run World FrameData frames_get view getColorByName
          updateTransactionActions a
          (ActionManager.mkEngine (ActionManager.history (engine app))
             (ActionManager.setStore World s (ActionManager.editor (engine app)))) in
      Some (mkApp (StyleCache.updateStyleNoAction DOMRect css (style app)) e)
  end.

Definition updateMultiple (css : JsRecord (option string)) (app : App) : option App :=
  applyStyles css [] Value app.

Definition update (property value : string) (app : App) : option App :=
  updateMultiple [(property, Some value)] app.

Definition updateCustom (property value : string) (domIds : list string) (app : App)
  : option App :=
  applyStyles [(property, Some value)] domIds Custom app.

End Commands.
End Editing.

(** ** Sample actions, objects and elements *)

Module Fixture.

Definition red : Action StyleChange :=
  styleActionOn Sample.target1 (Sample.colorChange "rgb(0, 0, 0)" "red" Value).

Definition blue : Action StyleChange :=
  styleActionOn Sample.target2 (Sample.colorChange "rgb(0, 0, 0)" "blue" Value).

Definition green : Action StyleChange :=
  styleActionOn Sample.target1 (Sample.colorChange "rgb(0, 0, 0)" "green" Value).

(** Two objects: a literal at location 1, a token at location 2. *)
Definition cells : gmap loc StyleChange :=
  <[2%positive := mkStyleChange "primary" Custom]>
    (<[1%positive := mkStyleChange "rgb(0, 0, 0)" Value]> ∅).

(** A style action on [el-1] whose halves are those two objects. *)
Definition live : Action loc :=
  UpdateStyle
    [mkStyleTarget Sample.target1
       (mkChange [("color", 1%positive)] [("color", 2%positive)])].

Definition editor : ActionManager.Editor unit := ActionManager.mkEditor tt cells [].

(** An element with an empty defined colour and computed styles. *)
Definition elementStyles : DomElement.styles_t :=
  DomElement.mkStyles [("color", "")] [("color", "blue"); ("width", "10px")].

Definition element : DomElement.t :=
  DomElement.mk "el-1" "frame-1" (Some "oid-1") None (Some elementStyles).

Definition element2 : DomElement.t :=
  DomElement.mk "el-2" "frame-2" (Some "oid-2") None None.

Definition manager : StyleManager.t :=
  StyleManager.mk (Some (StyleManager.mkEngine [element; element2]))
    StyleManager.RootMode.

(** A style manager with nothing cached; rectangles are four numbers. *)
Definition cache : StyleCache.t (Z * Z * Z * Z) :=
  StyleCache.mk (Z * Z * Z * Z) manager None ∅ "".

Definition noRect (el : DomElement.t) : option (Z * Z * Z * Z) := None.

End Fixture.

(** * Properties *)

(** ** Arrays as stacks *)

Lemma pop_snoc {A : Type} (l : list A) (a : A) : pop (l ++ [a]) = (Some a, l).
Proof. unfold pop. by rewrite last_snoc, removelast_last. Qed.

Lemma pop_nil {A : Type} : pop (@nil A) = (None, []).
Proof. reflexivity. Qed.

Lemma pop_nonempty {A : Type} (l : list A) :
  l <> [] -> exists l' a, l = l' ++ [a] /\ pop l = (Some a, l').
Proof.
  intros Hne. destruct (last l) as [a|] eqn:Hl.
  - apply last_Some in Hl as [l' ->]. exists l', a. split; [done|apply pop_snoc].
  - apply last_None in Hl. contradiction.
Qed.

(** ** The history manager *)

Section HistoryFacts.

Context {V : Type}.
Variable undoAction : Action V -> Action V.
Variable transformRedoAction : Action V -> Action V.
Variable updateTransactionActions : list (Action V) -> Action V -> list (Action V).

Local Abbreviation push := (History.push updateTransactionActions).
Local Abbreviation commitTransaction := (History.commitTransaction updateTransactionActions).
Local Abbreviation undo := (History.undo undoAction updateTransactionActions).
Local Abbreviation redo := (History.redo transformRedoAction updateTransactionActions).

(** Outside a transaction, [push] puts the action on top of the undo
    stack, empties the redo stack and stays outside a transaction. *)
Lemma push_not_in_transaction (a : Action V) (h : History.HistoryManager V) :
  History.inTransaction h = History.NotInTransaction ->
  History.undoStack (push a h) = History.undoStack h ++ [a]
  /\ History.redoStack (push a h) = []
  /\ History.inTransaction (push a h) = History.NotInTransaction
  /\ History.suspended (push a h) = History.suspended h.
Proof.
  intros Hout. unfold History.push, History.push_enter. rewrite Hout. simpl.
  repeat split. destruct (History.redoStack h); reflexivity.
Qed.

(** Inside a transaction, [push] only rewrites the buffer. *)
Lemma push_in_transaction (a : Action V) (h : History.HistoryManager V)
    (actions : list (Action V)) :
  History.inTransaction h = History.InTransaction actions ->
  push a h =
    History.mkHistory (History.undoStack h) (History.redoStack h)
      (History.InTransaction (updateTransactionActions actions a))
      (History.effects h) (History.suspended h).
Proof.
  intros Hin. unfold History.push, History.push_enter. by rewrite Hin.
Qed.

(** Pushing a run of actions outside a transaction stacks them in order. *)
Lemma push_all_not_in_transaction (acts : list (Action V)) (h : History.HistoryManager V) :
  History.inTransaction h = History.NotInTransaction ->
  let h' := fold_left (fun h0 a => push a h0) acts h in
  History.undoStack h' = History.undoStack h ++ acts
  /\ History.inTransaction h' = History.NotInTransaction
  /\ (acts <> [] -> History.redoStack h' = []).
Proof.
  revert h. induction acts as [|a acts IH]; intros h Hout; simpl.
  - rewrite app_nil_r. done.
  - destruct (push_not_in_transaction a h Hout) as (Hu & Hr & Ht & _).
    destruct (IH (push a h) Ht) as (Hu' & Ht' & Hr').
    rewrite Hu', Hu, <- app_assoc. simpl. repeat split; [done|].
    intros _. destruct acts as [|b acts]; [exact Hr|]. by apply Hr'.
Qed.

(** The awaited [commitTransaction] of a transaction with buffer
    [actions] pushes the buffer, in order, and closes the transaction. *)
Lemma commitTransaction_flushes (h : History.HistoryManager V)
    (actions : list (Action V)) :
  History.inTransaction h = History.InTransaction actions ->
  History.undoStack (commitTransaction h) = History.undoStack h ++ actions
  /\ History.inTransaction (commitTransaction h) = History.NotInTransaction.
Proof.
  intros Hin. unfold History.commitTransaction. rewrite Hin.
  match goal with
  | |- context [fold_left _ actions ?c] =>
      destruct (push_all_not_in_transaction actions c eq_refl) as (Hu & Ht & _)
  end.
  simpl in Hu. by rewrite Hu, Ht.
Qed.

(** With nothing buffered, the detached commit of [undo] and [redo]
    touches neither stack and leaves nothing suspended. *)
Lemma commitTransaction_detached_empty (h : History.HistoryManager V) :
  History.buffered h = [] ->
  let h1 := History.commitTransaction_detached updateTransactionActions h in
  History.undoStack h1 = History.undoStack h
  /\ History.redoStack h1 = History.redoStack h
  /\ History.inTransaction h1 = History.NotInTransaction.
Proof.
  unfold History.buffered, History.commitTransaction_detached,
    History.commitTransaction_enter.
  destruct (History.inTransaction h) as [acts|]; intros Hb; simpl in *.
  - subst acts. simpl. done.
  - done.
Qed.

(** C3, as the code has it: [startTransaction] opens an empty
    transaction whatever the state was.  Both stacks are kept, and the
    buffer of a transaction that was already open is discarded. *)
Theorem startTransaction_resets_buffer (h : History.HistoryManager V) :
  History.inTransaction (History.startTransaction h) = History.InTransaction []
  /\ History.buffered (History.startTransaction h) = []
  /\ History.undoStack (History.startTransaction h) = History.undoStack h
  /\ History.redoStack (History.startTransaction h) = History.redoStack h.
Proof. repeat split. Qed.

(** C5, as the code has it: with no action waiting in a transaction
    buffer, [undo] on a non-empty undo stack returns an action, takes
    one entry off the undo stack and adds one to the redo stack;
    [redo] on a non-empty redo stack does the same the other way
    round. *)
Theorem undo_redo_stack_lengths (h : History.HistoryManager V) :
  History.buffered h = [] ->
  (History.undoStack h <> [] ->
     exists a h', undo h = (Some a, h')
       /\ length (History.undoStack h) = length (History.undoStack h') + 1
       /\ length (History.redoStack h') = length (History.redoStack h) + 1)
  /\ (History.redoStack h <> [] ->
     exists a h', redo h = (Some a, h')
       /\ length (History.redoStack h) = length (History.redoStack h') + 1
       /\ length (History.undoStack h') = length (History.undoStack h) + 1).
Proof.
  intros Hb.
  pose proof (commitTransaction_detached_empty h Hb) as (Hu & Hr & _).
  split; intros Hne.
  - unfold History.undo.
    set (h1 := match History.inTransaction h with
               | History.InTransaction _ =>
                   History.commitTransaction_detached updateTransactionActions h
               | History.NotInTransaction => h
               end).
    assert (History.undoStack h1 = History.undoStack h
            /\ History.redoStack h1 = History.redoStack h) as [Hu1 Hr1].
    { subst h1. destruct (History.inTransaction h); done. }
    destruct (pop_nonempty _ Hne) as (l' & top & Heq & Hpop).
    rewrite Hu1, Hpop. eexists _, _. split; [reflexivity|]. simpl.
    rewrite Heq, Hr1, !length_app. simpl. lia.
  - unfold History.redo.
    set (h1 := match History.inTransaction h with
               | History.InTransaction _ =>
                   History.commitTransaction_detached updateTransactionActions h
               | History.NotInTransaction => h
               end).
    assert (History.undoStack h1 = History.undoStack h
            /\ History.redoStack h1 = History.redoStack h) as [Hu1 Hr1].
    { subst h1. destruct (History.inTransaction h); done. }
    destruct (pop_nonempty _ Hne) as (l' & top & Heq & Hpop).
    rewrite Hr1, Hpop. eexists _, _. split; [reflexivity|]. simpl.
    rewrite Heq, Hu1, !length_app. simpl. lia.
Qed.

(** C6: outside a transaction and with a non-empty redo stack, pushing
    an action empties the redo stack, and a [redo] after it returns
    [null] and changes nothing. *)
Theorem push_clears_redo (a : Action V) (h : History.HistoryManager V) :
  History.inTransaction h = History.NotInTransaction ->
  History.redoStack h <> [] ->
  History.redoStack (push a h) = []
  /\ History.canRedo (push a h) = false
  /\ redo (push a h) = (None, push a h).
Proof.
  intros Hout _.
  destruct (push_not_in_transaction a h Hout) as (_ & Hr & Ht & _).
  split; [exact Hr|]. split; [unfold History.canRedo; by rewrite Hr|].
  unfold History.redo. rewrite Ht, Hr. simpl.
  destruct (push a h) as [u r t e s]. simpl in *. by subst.
Qed.

(** C9: [clear] empties both stacks and keeps the transaction state;
    the buffer of an open transaction survives it, and the next
    [commitTransaction] pushes that buffer onto the emptied undo
    stack and closes the transaction. *)
Theorem clear_keeps_transaction (undoS redoS actions : list (Action V))
    (eff : list (History.Effect V)) (susp : list (Action V * list (Action V))) :
  let h := History.mkHistory undoS redoS (History.InTransaction actions) eff susp in
  History.undoStack (History.clear h) = []
  /\ History.redoStack (History.clear h) = []
  /\ History.inTransaction (History.clear h) = History.InTransaction actions
  /\ History.buffered (History.clear h) = actions
  /\ History.undoStack (commitTransaction (History.clear h)) = actions
  /\ History.inTransaction (commitTransaction (History.clear h))
     = History.NotInTransaction.
Proof.
  intros h. repeat split.
  - by destruct (commitTransaction_flushes (History.clear h) actions eq_refl) as [-> _].
  - by destruct (commitTransaction_flushes (History.clear h) actions eq_refl) as [_ ->].
Qed.

End HistoryFacts.

(** C3: the claim fails on the code.  A second [startTransaction] on an
    open transaction that holds an action is not a no-op: the state
    changes and the buffered action is gone. *)
Lemma startTransaction_nested_loses_buffer :
  ~ (forall h : History.HistoryManager StyleChange,
       History.isInTransaction h = true ->
       History.buffered h <> [] ->
       History.startTransaction h = h).
Proof.
  intros Hclaim.
  pose (a := styleActionOn Sample.target1 (Sample.colorChange "rgb(0, 0, 0)" "red" Value)).
  specialize (Hclaim (History.mkHistory [] [] (History.InTransaction [a]) [] [])).
  simpl in Hclaim. specialize (Hclaim eq_refl ltac:(discriminate)).
  discriminate Hclaim.
Qed.

(** C5: the chain of equalities of the claim fails on the code.  With
    two actions on the undo stack and an empty redo stack, [undo]
    leaves one action on each stack: the undo stack was 2 long before,
    the redo stack is 1 long after. *)
Lemma undo_lengths_chain_fails :
  ~ (forall h : History.HistoryManager StyleChange,
       History.undoStack h <> [] ->
       let h' := snd (History.undo id Helpers.updateTransactionActions h) in
       length (History.undoStack h) = length (History.undoStack h') + 1
       /\ length (History.undoStack h') + 1 = length (History.redoStack h')).
Proof.
  intros Hclaim.
  pose (a := styleActionOn Sample.target1 (Sample.colorChange "rgb(0, 0, 0)" "red" Value)).
  pose (b := styleActionOn Sample.target2 (Sample.colorChange "rgb(0, 0, 0)" "blue" Value)).
  specialize (Hclaim (History.mkHistory [a; b] [] History.NotInTransaction [] [])).
  simpl in Hclaim. destruct (Hclaim ltac:(discriminate)) as [_ Hbad].
  discriminate Hbad.
Qed.

Lemma undo_redo_stack_lengths_witness :
  let a := styleActionOn Sample.target1 (Sample.colorChange "rgb(0, 0, 0)" "red" Value) in
  let b := styleActionOn Sample.target2 (Sample.colorChange "rgb(0, 0, 0)" "blue" Value) in
  let h := History.mkHistory [a; b] [a] History.NotInTransaction [] [] in
  (exists x h', History.undo id Helpers.updateTransactionActions h = (Some x, h')
     /\ length (History.undoStack h) = length (History.undoStack h') + 1
     /\ length (History.redoStack h') = length (History.redoStack h) + 1)
  /\ (exists x h', History.redo id Helpers.updateTransactionActions h = (Some x, h')
     /\ length (History.redoStack h) = length (History.redoStack h') + 1
     /\ length (History.undoStack h') = length (History.undoStack h) + 1).
Proof.
  intros a b h.
  destruct (undo_redo_stack_lengths id id Helpers.updateTransactionActions h eq_refl)
    as [Hu Hr].
  split; [apply Hu | apply Hr]; discriminate.
Defined.

Lemma push_clears_redo_witness :
  let a := styleActionOn Sample.target1 (Sample.colorChange "rgb(0, 0, 0)" "red" Value) in
  let b := styleActionOn Sample.target2 (Sample.colorChange "rgb(0, 0, 0)" "blue" Value) in
  let h := History.mkHistory [] [a] History.NotInTransaction [] [] in
  let h1 := History.push Helpers.updateTransactionActions b h in
  History.redoStack h1 = []
  /\ History.canRedo h1 = false
  /\ History.redo id Helpers.updateTransactionActions h1 = (None, h1).
Proof.
  intros a b h h1.
  apply (push_clears_redo id Helpers.updateTransactionActions b h);
    [reflexivity | discriminate].
Defined.

(** ** Transaction coalescing *)

Section Coalescing.

Context {V : Type}.

Local Abbreviation merge := (@Helpers.updateTransactionActions V).

Lemma sameTargets_single (k k' : ActionTarget) (c c' : Change (JsRecord V)) :
  Helpers.sameTargets [mkStyleTarget k c] [mkStyleTarget k' c'] = bool_decide (k = k').
Proof.
  unfold Helpers.sameTargets. simpl.
  destruct (decide (k = k')) as [->|Hne].
  - by rewrite !bool_decide_eq_true_2.
  - rewrite (bool_decide_eq_false_2 (k' = k)) by congruence.
    by rewrite (bool_decide_eq_false_2 (k = k')).
Qed.

(** An action on the target of the buffer's last entry is merged into it. *)
Lemma merge_same_target (init : list (Action V)) (k : ActionTarget)
    (c c' : Change (JsRecord V)) :
  merge (init ++ [styleActionOn k c]) (styleActionOn k c')
  = init ++ [styleActionOn k (mkChange (original c) (updated c'))].
Proof.
  unfold Helpers.updateTransactionActions, styleActionOn.
  rewrite pop_snoc, sameTargets_single, bool_decide_eq_true_2 by done.
  unfold Helpers.mergeUpdated. simpl. by rewrite bool_decide_eq_true_2.
Qed.

(** An action on another target is appended. *)
Lemma merge_other_target (init : list (Action V)) (k k' : ActionTarget)
    (c c' : Change (JsRecord V)) :
  k <> k' ->
  merge (init ++ [styleActionOn k c]) (styleActionOn k' c')
  = init ++ [styleActionOn k c; styleActionOn k' c'].
Proof.
  intros Hne. unfold Helpers.updateTransactionActions, styleActionOn.
  rewrite pop_snoc, sameTargets_single, bool_decide_eq_false_2 by done.
  by rewrite <- app_assoc.
Qed.

Lemma merge_empty (a : Action V) : merge [] a = [a].
Proof. unfold Helpers.updateTransactionActions. simpl. by destruct a. Qed.

(** The buffer after a run of actions on one target. *)
Lemma buffer_same_target (k : ActionTarget) (cs : list (Change (JsRecord V)))
    (c : Change (JsRecord V)) (h : History.HistoryManager V) (init : list (Action V)) :
  History.inTransaction h = History.InTransaction (init ++ [styleActionOn k c]) ->
  let h' := fold_left (fun h0 a => History.push merge a h0) (map (styleActionOn k) cs) h in
  History.inTransaction h'
  = History.InTransaction
      (init ++ [styleActionOn k (mkChange (original c) (updated (List.last cs c)))])
  /\ History.undoStack h' = History.undoStack h.
Proof.
  revert c h. induction cs as [|c1 cs IH]; intros c h Hin; simpl.
  - split; [|done]. rewrite Hin. by destruct c.
  - rewrite (push_in_transaction merge _ h _ Hin), merge_same_target.
    match goal with
    | |- context [fold_left _ _ ?h1] =>
        destruct (IH (mkChange (original c) (updated c1)) h1 eq_refl) as [Ht Hu]
    end.
    simpl in Ht, Hu. rewrite Ht, Hu. split; [|done].
    destruct cs as [|c2 cs]; [done|].
    do 3 f_equal. f_equal.
    change (List.last (c1 :: c2 :: cs) c) with (List.last (c2 :: cs) c).
    clear. revert c2. induction cs as [|c3 cs IH]; intros c2; [done|].
    change (List.last (c2 :: c3 :: cs) ?d) with (List.last (c3 :: cs) d). apply IH.
Qed.

(** The buffer after a run of actions on pairwise different targets. *)
Lemma buffer_distinct_targets (kcs : list (ActionTarget * Change (JsRecord V)))
    (h : History.HistoryManager V) (buf : list (Action V)) :
  History.inTransaction h = History.InTransaction buf ->
  NoDup (map fst kcs) ->
  (buf = [] \/ exists init k c, buf = init ++ [styleActionOn k c] /\ k ∉ map fst kcs) ->
  let h' :=
    fold_left (fun h0 a => History.push merge a h0)
      (map (fun kc => styleActionOn (fst kc) (snd kc)) kcs) h in
  History.inTransaction h'
  = History.InTransaction (buf ++ map (fun kc => styleActionOn (fst kc) (snd kc)) kcs)
  /\ History.undoStack h' = History.undoStack h.
Proof.
  revert h buf. induction kcs as [|[k c] kcs IH]; intros h buf Hin Hnd Hlast; simpl.
  - by rewrite app_nil_r.
  - simpl in Hnd. apply NoDup_cons in Hnd as [Hk Hnd].
    rewrite (push_in_transaction merge _ h _ Hin).
    assert (merge buf (styleActionOn k c) = buf ++ [styleActionOn k c]) as Hm.
    { destruct Hlast as [->|(init & k' & c' & -> & Hk')].
      - apply merge_empty.
      - rewrite merge_other_target, <- app_assoc; [done|].
        intros ->. apply Hk'. simpl. left. }
    rewrite Hm.
    match goal with
    | |- context [fold_left _ _ ?h1] =>
        destruct (IH h1 (buf ++ [styleActionOn k c]) eq_refl Hnd) as [Ht Hu]
    end.
    { right. exists buf, k, c. done. }
    simpl in Ht, Hu. rewrite Ht, Hu, <- app_assoc. done.
Qed.

(** C4: inside a transaction, a run of [UpdateStyle] actions on one
    target is committed as exactly one undo-stack entry, whose
    [original] is the first action's and whose [updated] is the last
    action's; a run of actions on pairwise different targets is
    committed as one entry per action, in order. *)
Theorem transaction_coalescing (h : History.HistoryManager V) :
  (forall (k : ActionTarget) (c : Change (JsRecord V)) (cs : list (Change (JsRecord V))),
     History.undoStack (transact merge (map (styleActionOn k) (c :: cs)) h)
     = History.undoStack h
       ++ [styleActionOn k (mkChange (original c) (updated (List.last cs c)))])
  /\ (forall kcs : list (ActionTarget * Change (JsRecord V)),
     NoDup (map fst kcs) ->
     History.undoStack
       (transact merge (map (fun kc => styleActionOn (fst kc) (snd kc)) kcs) h)
     = History.undoStack h ++ map (fun kc => styleActionOn (fst kc) (snd kc)) kcs
     /\ length
          (History.undoStack
             (transact merge (map (fun kc => styleActionOn (fst kc) (snd kc)) kcs) h))
        = length (History.undoStack h) + length kcs).
Proof.
  split.
  - intros k c cs. unfold transact. simpl.
    rewrite (push_in_transaction merge _ (History.startTransaction h) [] eq_refl).
    rewrite merge_empty.
    match goal with
    | |- context [fold_left _ _ ?h1] =>
        destruct (buffer_same_target k cs c h1 [] eq_refl) as [Ht Hu]
    end.
    simpl in Ht, Hu.
    match goal with
    | |- History.undoStack (History.commitTransaction _ ?h2) = _ =>
        destruct (commitTransaction_flushes merge h2 _ Ht) as [-> _]
    end.
    exact (f_equal (fun l => l ++ _) Hu).
  - intros kcs Hnd. unfold transact.
    destruct (buffer_distinct_targets kcs (History.startTransaction h) [] eq_refl Hnd)
      as [Ht Hu]; [by left|].
    simpl in Ht, Hu.
    match goal with
    | |- context [History.commitTransaction _ ?h2] =>
        destruct (commitTransaction_flushes merge h2 _ Ht) as [Hc _]
    end.
    rewrite Hc, Hu. split; [done|]. by rewrite length_app, length_map.
Qed.

End Coalescing.

Lemma transaction_coalescing_witness :
  let h : History.HistoryManager StyleChange := Sample.history0 in
  let kcs :=
    [ (Sample.target1, Sample.colorChange "rgb(0, 0, 0)" "red" Value);
      (Sample.target2, Sample.colorChange "rgb(0, 0, 0)" "blue" Value) ] in
  NoDup (map fst kcs)
  /\ History.undoStack
       (transact Helpers.updateTransactionActions
          (map (fun kc => styleActionOn (fst kc) (snd kc)) kcs) h)
     = History.undoStack h ++ map (fun kc => styleActionOn (fst kc) (snd kc)) kcs.
Proof.
  intros h kcs.
  assert (NoDup (map fst kcs)) as Hnd.
  { simpl. apply NoDup_cons. split; [|apply NoDup_singleton].
    intros Hin. apply list_elem_of_singleton in Hin. discriminate Hin. }
  split; [exact Hnd|].
  destruct (transaction_coalescing h) as [_ Hdistinct].
  apply (Hdistinct kcs Hnd).
Defined.

(** ** Records *)

Lemma setProp_fresh {T : Type} (r : JsRecord T) (k : string) (v : T) :
  k ∉ keys r -> setProp r k v = r ++ [(k, v)].
Proof.
  induction r as [|[k' v'] r IH]; intros Hk; simpl; [done|].
  unfold keys in Hk. simpl in Hk. apply not_elem_of_cons in Hk as [Hne Hk].
  destruct (String.eqb_spec k' k) as [->|_]; [done|]. by rewrite IH.
Qed.

Lemma fromEntries_from {T : Type} (entries acc : list (string * T)) :
  NoDup (keys (acc ++ entries)) ->
  fold_left (fun r kv => setProp r (fst kv) (snd kv)) entries acc = acc ++ entries.
Proof.
  revert acc. induction entries as [|[k v] entries IH]; intros acc Hnd; simpl.
  - by rewrite app_nil_r.
  - assert (k ∉ keys acc) as Hk.
    { unfold keys in *. rewrite map_app in Hnd. apply NoDup_app in Hnd as (_ & Hd & _).
      intros Hin. apply (Hd k Hin). simpl. left. }
    rewrite setProp_fresh by done.
    rewrite IH; rewrite <- app_assoc; done.
Qed.

(** [Object.fromEntries] of the entries of an object gives the object back. *)
Lemma fromEntries_id {T : Type} (entries : list (string * T)) :
  NoDup (keys entries) -> fromEntries entries = entries.
Proof. intros Hnd. unfold fromEntries. by rewrite fromEntries_from. Qed.

Lemma getProp_NoDup {T : Type} (r : JsRecord T) (k : string) (v : T) :
  NoDup (keys r) -> (k, v) ∈ r -> getProp r k = Some v.
Proof.
  induction r as [|[k' v'] r IH]; intros Hnd Hin; [by apply elem_of_nil in Hin|].
  unfold keys in Hnd. simpl in Hnd. apply NoDup_cons in Hnd as [Hk Hnd]. simpl.
  apply elem_of_cons in Hin as [Heq|Hin].
  - inversion Heq; subst. by rewrite String.eqb_refl.
  - destruct (String.eqb_spec k' k) as [->|_]; [|by apply IH].
    exfalso. apply Hk. apply (list_elem_of_fmap_2 fst) in Hin. exact Hin.
Qed.

(** Every entry of [Object.fromEntries] is one of the entries given. *)
Lemma fromEntries_elem {T : Type} (entries : list (string * T)) (kv : string * T) :
  kv ∈ fromEntries entries -> kv ∈ entries.
Proof.
  unfold fromEntries.
  assert (forall acc, kv ∈ fold_left (fun r e => setProp r (fst e) (snd e)) entries acc ->
                      kv ∈ acc \/ kv ∈ entries) as Hgen.
  { induction entries as [|[k v] entries IH]; intros acc Hin; simpl in *; [by left|].
    destruct (IH _ Hin) as [Hacc|Hrest]; [|right; by apply elem_of_cons; right].
    assert (forall r : JsRecord T, kv ∈ setProp r k v -> kv ∈ r \/ kv = (k, v)) as Hset.
    { clear. induction r as [|[k' v'] r IHr]; simpl; intros Hin.
      - apply list_elem_of_singleton in Hin. by right.
      - destruct (String.eqb_spec k' k) as [->|_].
        + apply elem_of_cons in Hin as [->|Hin]; [by right|].
          left. apply elem_of_cons. by right.
        + apply elem_of_cons in Hin as [->|Hin]; [left; apply elem_of_cons; by left|].
          destruct (IHr Hin) as [?|?]; [left; apply elem_of_cons; by right|by right]. }
    destruct (Hset _ Hacc) as [? | ->]; [by left|right; apply elem_of_cons; by left]. }
  intros Hin. destruct (Hgen [] Hin) as [Hnil|?]; [by apply elem_of_nil in Hnil|done].
Qed.

(** ** The dispatcher *)

Section DispatcherFacts.

Variable World : Type.
Variable FrameData : Type.
Variable frames_get : World -> string -> option FrameData.
Variable view : FrameData -> ViewCall -> World -> ViewResult * World.
Variable getColorByName : string -> option string.

Import ActionManager.

Local Abbreviation Editor := (ActionManager.Editor World).
Local Abbreviation convertEntry := (ActionManager.convertEntry World getColorByName).
Local Abbreviation mapEntries := (ActionManager.mapEntries World getColorByName).
Local Abbreviation callView := (ActionManager.callView World FrameData view).
Local Abbreviation updateStyle_loop :=
  (ActionManager.updateStyle_loop World FrameData frames_get view getColorByName).
Local Abbreviation updateStyle :=
  (ActionManager.updateStyle World FrameData frames_get view getColorByName).
Local Abbreviation moveElement :=
  (ActionManager.moveElement World FrameData frames_get view).
Local Abbreviation removeElement :=
  (ActionManager.removeElement World FrameData frames_get view).

Lemma visited_idempotent (v : StyleChange) :
  visited getColorByName (visited getColorByName v) = visited getColorByName v.
Proof.
  unfold visited. destruct v as [s [|]]; simpl; [done|].
  destruct (truthy (getColorByName s)) as [r|] eqn:Hr; simpl; [done|].
  destruct (isLiteralColor s) eqn:Hl; simpl; [done|]. by rewrite Hr, Hl.
Qed.

Lemma requests_app (tr1 tr2 : list Event) :
  requests (tr1 ++ tr2) = requests tr1 ++ requests tr2.
Proof. unfold requests. apply omap_app. Qed.

Lemma snapshots_app (tr1 tr2 : list Event) :
  snapshots (tr1 ++ tr2) = snapshots tr1 ++ snapshots tr2.
Proof. unfold snapshots. apply flat_map_app. Qed.

Lemma warning_no_request (v : StyleChange) :
  requests (warning getColorByName v) = [] /\ snapshots (warning getColorByName v) = [].
Proof.
  unfold warning.
  destruct (type v), (truthy (getColorByName (value v))), (isLiteralColor (value v));
    done.
Qed.

(** One visit of the callback: the entry comes back as it was; the
    object it refers to is rewritten in the store. *)
Lemma convertEntry_spec (key : string) (l : loc) (st : Editor) :
  let r := convertEntry (key, l) st in
  fst r = (key, l)
  /\ world (snd r) = world st
  /\ (forall l', store (snd r) !! l' =
        if decide (l' = l) then visited getColorByName <$> store st !! l'
        else store st !! l')
  /\ trace (snd r) =
       trace st ++ match store st !! l with
                   | Some v => warning getColorByName v
                   | None => []
                   end.
Proof.
  unfold ActionManager.convertEntry, visited, warning.
  destruct (store st !! l) as [[s ty]|] eqn:Hl; simpl.
  - destruct ty; simpl.
    + repeat split; [|by rewrite app_nil_r].
      intros l'. destruct (decide (l' = l)) as [->|]; [by rewrite Hl|done].
    + destruct (truthy (getColorByName s)) as [r|] eqn:Hr; simpl.
      * repeat split; [|by rewrite app_nil_r].
        intros l'. destruct (decide (l' = l)) as [->|].
        -- rewrite lookup_insert_eq, Hl. simpl. by rewrite Hr.
        -- by rewrite lookup_insert_ne.
      * destruct (isLiteralColor s) eqn:Hlit; simpl.
        -- repeat split; [|by rewrite app_nil_r].
           intros l'. destruct (decide (l' = l)) as [->|].
           ++ rewrite lookup_insert_eq, Hl. simpl. by rewrite Hr, Hlit.
           ++ by rewrite lookup_insert_ne.
        -- repeat split.
           intros l'. destruct (decide (l' = l)) as [->|]; [|done].
           rewrite Hl. simpl. by rewrite Hr, Hlit.
  - repeat split; [|by rewrite app_nil_r].
    intros l'. destruct (decide (l' = l)) as [->|]; [by rewrite Hl|done].
Qed.

Lemma mapEntries_cons (kv : string * loc) (entries : list (string * loc)) (st : Editor) :
  mapEntries (kv :: entries) st =
  let (kv', st1) := convertEntry kv st in
  let (rest', st2) := mapEntries entries st1 in
  (kv' :: rest', st2).
Proof. reflexivity. Qed.

(** The whole [.map(...)]: the entries come back unchanged, and every
    object they refer to has been visited, however many entries share it. *)
Lemma mapEntries_spec (entries : list (string * loc)) (st : Editor) :
  let r := mapEntries entries st in
  fst r = entries
  /\ world (snd r) = world st
  /\ (forall l, store (snd r) !! l =
        if decide (l ∈ map snd entries) then visited getColorByName <$> store st !! l
        else store st !! l)
  /\ (exists warns, trace (snd r) = trace st ++ warns
        /\ requests warns = [] /\ snapshots warns = []
        /\ forall key l v, (key, l) ∈ entries -> store st !! l = Some v ->
             forall w, w ∈ warning getColorByName v -> w ∈ warns).
Proof.
  revert st. induction entries as [|[key l] entries IH]; intros st.
  - simpl. repeat split. exists []. rewrite app_nil_r. repeat split.
    intros ? ? ? Hin. by apply elem_of_nil in Hin.
  - rewrite mapEntries_cons.
    change (map snd ((key, l) :: entries)) with (l :: map snd entries).
    pose proof (convertEntry_spec key l st) as (Hkv & Hw & Hs & Ht).
    destruct (convertEntry (key, l) st) as [kv' st1]. simpl in *. subst kv'.
    specialize (IH st1). destruct (mapEntries entries st1) as [rest' st2]. simpl in *.
    destruct IH as (-> & Hw2 & Hs2 & warns & Ht2 & Hrq & Hsn & Hwarn).
    split; [done|]. split; [congruence|]. split.
    + intros l'. rewrite Hs2, Hs.
      destruct (decide (l' = l)) as [->|Hne].
      * rewrite (decide_True (P := l ∈ l :: map snd entries)) by apply list_elem_of_here.
        destruct (decide (l ∈ map snd entries)); [|done].
        destruct (store st !! l) as [v|]; simpl; [|done].
        by rewrite visited_idempotent.
      * destruct (decide (l' ∈ map snd entries)) as [Hin|Hnin].
        -- by rewrite (decide_True (P := l' ∈ l :: map snd entries))
             by (by apply list_elem_of_further).
        -- rewrite (decide_False (P := l' ∈ l :: map snd entries)); [done|].
           intros Hin. apply elem_of_cons in Hin as [?|?]; done.
    + exists (match store st !! l with
              | Some v => warning getColorByName v
              | None => []
              end ++ warns).
      split; [by rewrite Ht2, Ht, app_assoc|].
      rewrite requests_app, snapshots_app, Hrq, Hsn.
      split; [|split].
      * destruct (store st !! l) as [v|]; [|done].
        by destruct (warning_no_request v) as [-> _].
      * destruct (store st !! l) as [v|]; [|done].
        by destruct (warning_no_request v) as [_ ->].
      * intros key' l' v Hin Hl' w Hw'.
        apply elem_of_app.
        apply elem_of_cons in Hin as [Heq|Hin].
        -- inversion Heq; subst. left. by rewrite Hl'.
        -- destruct (decide (l' = l)) as [->|Hne].
           ++ left. by rewrite Hl'.
           ++ right. apply (Hwarn key' l' v Hin); [|done].
              by rewrite Hs, decide_False.
Qed.

Lemma getProp_cloneRecord (s : gmap loc StyleChange) (r : JsRecord loc)
    (key : string) (l : loc) (v : StyleChange) :
  NoDup (keys r) -> (key, l) ∈ r -> s !! l = Some v ->
  getProp (cloneRecord s r) key = Some v.
Proof.
  induction r as [|[k0 l0] r IH]; intros Hnd Hin Hl; [by apply elem_of_nil in Hin|].
  unfold keys in Hnd. simpl in Hnd. apply NoDup_cons in Hnd as [Hk Hnd].
  apply elem_of_cons in Hin as [Heq|Hin].
  - inversion Heq; subst. unfold cloneRecord. simpl. rewrite Hl. simpl.
    by rewrite String.eqb_refl.
  - assert (k0 <> key) as Hne.
    { intros ->. apply Hk. apply (list_elem_of_fmap_2 fst) in Hin. exact Hin. }
    unfold cloneRecord. simpl. destruct (s !! l0) as [v0|]; simpl.
    + destruct (String.eqb_spec k0 key) as [?|_]; [done|]. by apply IH.
    + by apply IH.
Qed.

Lemma callView_spec (frame : string) (frameData : FrameData) (call : ViewCall)
    (st : Editor) :
  let r := callView frame frameData call st in
  fst r = fst (view frameData call (world st))
  /\ world (snd r) = snd (view frameData call (world st))
  /\ store (snd r) = store st
  /\ trace (snd r) = trace st ++ [ViewRequest frame call (fst r)].
Proof.
  unfold ActionManager.callView. by destruct (view frameData call (world st)).
Qed.

Lemma updateStyle_loop_cons (t : StyleActionTarget loc)
    (rest : list (StyleActionTarget loc)) (domEls : list DomElement.t) (st : Editor) :
  updateStyle_loop (t :: rest) domEls st =
  match frames_get (world st) (frameId (target t)) with
  | None => Returned (emit (ConsoleError "Failed to get frameView") st)
  | Some frameData =>
      let (entries, st1) := mapEntries (updated (change t)) st in
      let (r, st2) :=
        callView (frameId (target t)) frameData
          (CallUpdateStyle (domId (target t))
             (cloneDeep (store st1)
                (mkChange (original (change t)) (fromEntries entries)))) st1 in
      match r with
      | ViewThrew err => Rejected err st2
      | ViewReturned None =>
          updateStyle_loop rest domEls (emit (ConsoleError "Failed to update style") st2)
      | ViewReturned (Some domEl) => updateStyle_loop rest (domEls ++ [domEl]) st2
      end
  end.
Proof. reflexivity. Qed.

(** The loop only ever adds to the trace. *)
Lemma updateStyle_loop_trace (targets : list (StyleActionTarget loc))
    (domEls : list DomElement.t) (st : Editor) :
  exists more, trace (final (updateStyle_loop targets domEls st)) = trace st ++ more.
Proof.
  revert domEls st. induction targets as [|t rest IH]; intros domEls st.
  - exists []. simpl. by rewrite app_nil_r.
  - rewrite updateStyle_loop_cons.
    destruct (frames_get (world st) (frameId (target t))) as [frameData|];
      [|by eexists].
    pose proof (mapEntries_spec (updated (change t)) st)
      as (_ & _ & _ & warns & Ht1 & _).
    destruct (mapEntries (updated (change t)) st) as [entries st1]. simpl in Ht1.
    match goal with
    | |- context [callView ?f ?fd ?c ?s] =>
        pose proof (callView_spec f fd c s) as (_ & _ & _ & Ht2);
        destruct (callView f fd c s) as [r st2]
    end.
    simpl in Ht2.
    destruct r as [[domEl|]|err].
    + destruct (IH (domEls ++ [domEl]) st2) as [more ->].
      rewrite Ht2, Ht1, <- !app_assoc. by eexists.
    + destruct (IH domEls (emit (ConsoleError "Failed to update style") st2))
        as [more ->].
      simpl. rewrite Ht2, Ht1, <- !app_assoc. by eexists.
    + simpl. rewrite Ht2, Ht1, <- !app_assoc. by eexists.
Qed.

(** When the frame of a target is gone, [updateStyle] returns on the
    spot: the targets after it are not looked at, and the refresh with
    the snapshots collected so far is not made. *)
Lemma updateStyle_missing_frame (t : StyleActionTarget loc)
    (rest : list (StyleActionTarget loc)) (domEls : list DomElement.t) (st : Editor) :
  frames_get (world st) (frameId (target t)) = None ->
  updateStyle_loop (t :: rest) domEls st
  = Returned (emit (ConsoleError "Failed to get frameView") st).
Proof. intros Hgone. rewrite updateStyle_loop_cons. by rewrite Hgone. Qed.

(** C7, as the code has it: when [updateStyle] reaches a target whose
    frame is mounted, an [updated] entry of type [Custom] is sent to the
    view (a) as [{value: resolved, type: Value}] when the resolver gives
    a non-empty [resolved]; otherwise (b) as type [Value] with its value
    unchanged when the raw string starts with [#], [rgb] or [hsl], letter
    case ignored; otherwise (c) unchanged, as [Custom], after a warning.
    In each case the view request for the target is made. *)
Theorem token_resolution (t : StyleActionTarget loc)
    (rest : list (StyleActionTarget loc)) (domEls : list DomElement.t) (st : Editor)
    (frameData : FrameData) (key : string) (l : loc) (v : StyleChange) :
  frames_get (world st) (frameId (target t)) = Some frameData ->
  NoDup (keys (updated (change t))) ->
  (key, l) ∈ updated (change t) ->
  store st !! l = Some v ->
  type v = Custom ->
  exists sent more,
    requests (trace (final (updateStyle_loop (t :: rest) domEls st)))
    = requests (trace st)
        ++ (frameId (target t), CallUpdateStyle (domId (target t)) sent) :: more
    /\ (forall resolved, truthy (getColorByName (value v)) = Some resolved ->
          getProp (updated sent) key = Some (mkStyleChange resolved Value))
    /\ (truthy (getColorByName (value v)) = None -> isLiteralColor (value v) = true ->
          getProp (updated sent) key = Some (mkStyleChange (value v) Value))
    /\ (truthy (getColorByName (value v)) = None -> isLiteralColor (value v) = false ->
          getProp (updated sent) key = Some v
          /\ ConsoleWarn ("Unknown design token: " +:+ value v)
             ∈ trace (final (updateStyle_loop (t :: rest) domEls st))).
Proof.
  intros Hframe Hnd Hin Hl Hty.
  rewrite updateStyle_loop_cons, Hframe.
  pose proof (mapEntries_spec (updated (change t)) st)
    as (Hes & _ & Hs1 & warns & Ht1 & Hrq & _ & Hwarn).
  destruct (mapEntries (updated (change t)) st) as [entries st1].
  simpl in Hes, Hs1, Ht1. subst entries.
  assert (store st1 !! l = Some (visited getColorByName v)) as Hl1.
  { rewrite Hs1, decide_True, Hl; [done|].
    apply (list_elem_of_fmap_2 snd) in Hin. exact Hin. }
  rewrite (fromEntries_id _ Hnd).
  set (sent := cloneDeep (store st1)
                 (mkChange (original (change t)) (updated (change t)))).
  assert (getProp (updated sent) key = Some (visited getColorByName v)) as Hsent.
  { subst sent. simpl. by apply (getProp_cloneRecord _ _ key l). }
  pose proof (callView_spec (frameId (target t)) frameData
                (CallUpdateStyle (domId (target t)) sent) st1) as (_ & _ & _ & Ht2).
  destruct (callView (frameId (target t)) frameData
              (CallUpdateStyle (domId (target t)) sent) st1) as [r st2].
  simpl in Ht2.
  assert (exists tail,
            trace (final (match r with
                          | ViewThrew err => Rejected err st2
                          | ViewReturned None =>
                              updateStyle_loop rest domEls
                                (emit (ConsoleError "Failed to update style") st2)
                          | ViewReturned (Some domEl) =>
                              updateStyle_loop rest (domEls ++ [domEl]) st2
                          end))
            = trace st ++ warns
                ++ ViewRequest (frameId (target t))
                     (CallUpdateStyle (domId (target t)) sent) r :: tail) as [tail Htr].
  { destruct r as [[domEl|]|err].
    - destruct (updateStyle_loop_trace rest (domEls ++ [domEl]) st2) as [more ->].
      rewrite Ht2, Ht1, <- !app_assoc. by eexists.
    - destruct (updateStyle_loop_trace rest domEls
                  (emit (ConsoleError "Failed to update style") st2)) as [more ->].
      simpl. rewrite Ht2, Ht1, <- !app_assoc. by eexists.
    - simpl. rewrite Ht2, Ht1, <- !app_assoc. by eexists. }
  exists sent, (requests tail). rewrite Htr.
  split; [|split; [|split]].
  - rewrite !requests_app, Hrq. done.
  - intros resolved Hr. rewrite Hsent. unfold visited. by rewrite Hty, Hr.
  - intros Hr Hlit. rewrite Hsent. unfold visited. by rewrite Hty, Hr, Hlit.
  - intros Hr Hlit. split.
    + rewrite Hsent. unfold visited. by rewrite Hty, Hr, Hlit.
    + apply elem_of_app. right. apply elem_of_app. left.
      apply (Hwarn key l v Hin Hl). unfold warning. rewrite Hty, Hr, Hlit.
      apply list_elem_of_singleton. done.
Qed.

Lemma moveElement_cons (t : ActionTarget) (rest : list ActionTarget)
    (location : ActionLocation) (st : Editor) :
  moveElement (t :: rest) location st =
  match frames_get (world st) (frameId t) with
  | None => Returned (emit (ConsoleError "Failed to get frameView") st)
  | Some frameView =>
      let (r, st1) :=
        callView (frameId t) frameView (CallMoveElement (domId t) (index location)) st in
      match r with
      | ViewThrew err => Rejected err st1
      | ViewReturned None => Returned (emit (ConsoleError "Failed to move element") st1)
      | ViewReturned (Some domEl) =>
          moveElement rest location (refreshAndClickMutatedElement World domEl st1)
      end
  end.
Proof. reflexivity. Qed.

Lemma removeElement_cons (t : ActionTarget) (rest : list ActionTarget)
    (location : ActionLocation) (st : Editor) :
  removeElement (t :: rest) location st =
  match frames_get (world st) (frameId t) with
  | None => Returned (emit (ConsoleError "Failed to get frameView") st)
  | Some frameView =>
      let (r, st1) := callView (frameId t) frameView (CallRemoveElement location) st in
      match r with
      | ViewThrew err => Rejected err st1
      | ViewReturned None => Returned (emit (ConsoleError "Failed to remove element") st1)
      | ViewReturned (Some domEl) =>
          removeElement rest location
            (refreshAndClickMutatedElement World domEl (emit OverlayRefresh st1))
      end
  end.
Proof. reflexivity. Qed.

(** C8: when the loop of [moveElement] or [removeElement] reaches a
    target whose view call returns [null], the handler returns: the
    failed call is the last request made, whatever targets follow, and
    no snapshot is handed on for the failed target. *)
Theorem structural_failure_aborts (t : ActionTarget) (rest : list ActionTarget)
    (location : ActionLocation) (st : Editor) (frameView : FrameData) :
  frames_get (world st) (frameId t) = Some frameView ->
  (fst (view frameView (CallMoveElement (domId t) (index location)) (world st))
   = ViewReturned None ->
   exists st',
     moveElement (t :: rest) location st = Returned st'
     /\ moveElement (t :: rest) location st = moveElement [t] location st
     /\ requests (trace st')
        = requests (trace st)
            ++ [(frameId t, CallMoveElement (domId t) (index location))]
     /\ snapshots (trace st') = snapshots (trace st))
  /\ (fst (view frameView (CallRemoveElement location) (world st)) = ViewReturned None ->
   exists st',
     removeElement (t :: rest) location st = Returned st'
     /\ removeElement (t :: rest) location st = removeElement [t] location st
     /\ requests (trace st')
        = requests (trace st) ++ [(frameId t, CallRemoveElement location)]
     /\ snapshots (trace st') = snapshots (trace st)).
Proof.
  intros Hframe. split; intros Hnull.
  - rewrite !moveElement_cons, Hframe.
    pose proof (callView_spec (frameId t) frameView
                  (CallMoveElement (domId t) (index location)) st) as (Hr & _ & _ & Ht).
    destruct (callView (frameId t) frameView
                (CallMoveElement (domId t) (index location)) st) as [r st1].
    simpl in Hr, Ht. rewrite Hnull in Hr. subst r.
    eexists. split; [reflexivity|]. split; [reflexivity|]. simpl.
    rewrite Ht, <- app_assoc, requests_app, snapshots_app. simpl.
    by rewrite app_nil_r.
  - rewrite !removeElement_cons, Hframe.
    pose proof (callView_spec (frameId t) frameView (CallRemoveElement location) st)
      as (Hr & _ & _ & Ht).
    destruct (callView (frameId t) frameView (CallRemoveElement location) st)
      as [r st1].
    simpl in Hr, Ht. rewrite Hnull in Hr. subst r.
    eexists. split; [reflexivity|]. split; [reflexivity|]. simpl.
    rewrite Ht, <- app_assoc, requests_app, snapshots_app. simpl.
    by rewrite app_nil_r.
Qed.

End DispatcherFacts.

(** ** The dispatcher on the sample editor *)

Lemma token_resolution_witness :
  let s : gmap loc StyleChange :=
    <[2%positive := mkStyleChange "primary" Custom]>
      (<[1%positive := mkStyleChange "rgb(0, 0, 0)" Value]> ∅) in
  let t :=
    mkStyleTarget Sample.target1
      (mkChange [("color", 1%positive)] [("color", 2%positive)]) in
  let st := ActionManager.mkEditor tt s [] in
  exists sent more,
    ActionManager.requests
      (ActionManager.trace
         (ActionManager.final
            (ActionManager.updateStyle_loop unit string Sample.frames_get Sample.view
               Sample.getColorByName [t] [] st)))
    = ("frame-1", CallUpdateStyle "el-1" sent) :: more
    /\ getProp (updated sent) "color" = Some (mkStyleChange "#112233" Value).
Proof.
  intros s t st.
  destruct (token_resolution unit string Sample.frames_get Sample.view
              Sample.getColorByName t [] [] st "frame-1" "color" 2%positive
              (mkStyleChange "primary" Custom))
    as (sent & more & Hreq & Hres & _).
  - reflexivity.
  - apply NoDup_singleton.
  - apply list_elem_of_here.
  - vm_compute. reflexivity.
  - reflexivity.
  - exists sent, more. split; [exact Hreq|]. apply Hres. reflexivity.
Defined.

(** C7: the claim fails on the code for a literal length.  The token
    ["16px"] is unknown to the resolver and is a literal length, yet the
    view receives it as [Custom], after a warning: only strings that
    start with [#], [rgb] or [hsl] are reclassified. *)
Lemma literal_length_stays_custom :
  let (a, s) :=
    allocAction
      (styleActionOn Sample.target1 (Sample.colorChange "rgb(0, 0, 0)" "16px" Custom)) ∅ in
  truthy (Sample.getColorByName "16px") = None
  /\ specLiteralSyntax "16px" = true
  /\ ActionManager.trace
       (ActionManager.final (Sample.dispatch a (ActionManager.mkEditor tt s [])))
     = [ ConsoleWarn "Unknown design token: 16px";
         ViewRequest "frame-1"
           (CallUpdateStyle "el-1" (Sample.colorChange "rgb(0, 0, 0)" "16px" Custom))
           (ViewReturned (Some (Sample.snapshot "frame-1" "el-1")));
         RefreshDomElement [Sample.snapshot "frame-1" "el-1"] ].
Proof. vm_compute. repeat split. Qed.

Lemma structural_failure_aborts_witness :
  let location := mkLocation "detached" 0 in
  let st := Sample.editor0 in
  (exists st',
     ActionManager.moveElement unit string Sample.frames_get Sample.view
       [Sample.targetDetached; Sample.target2] location st
     = ActionManager.Returned st'
     /\ ActionManager.requests (ActionManager.trace st')
        = [("frame-1", CallMoveElement "detached" 0)]
     /\ ActionManager.snapshots (ActionManager.trace st') = [])
  /\ (exists st',
     ActionManager.removeElement unit string Sample.frames_get Sample.view
       [Sample.targetDetached; Sample.target2] location st
     = ActionManager.Returned st'
     /\ ActionManager.requests (ActionManager.trace st')
        = [("frame-1", CallRemoveElement location)]
     /\ ActionManager.snapshots (ActionManager.trace st') = []).
Proof.
  intros location st.
  destruct (structural_failure_aborts unit string Sample.frames_get Sample.view
              Sample.targetDetached [Sample.target2] location st "frame-1" eq_refl)
    as [Hmove Hremove].
  split.
  - destruct (Hmove eq_refl) as (st' & Hret & _ & Hreq & Hsnap).
    exists st'. repeat split; assumption.
  - destruct (Hremove eq_refl) as (st' & Hret & _ & Hreq & Hsnap).
    exists st'. repeat split; assumption.
Defined.

(** C1, on the code: a style action with three targets, the second in
    a frame that is gone.  The first target is updated; then
    [updateStyle] returns: the third target, whose frame is mounted, is
    never sent to its view, and the snapshot of the first is never
    handed to the refresh. *)
Lemma updateStyle_missing_frame_drops_siblings :
  let (a, s) :=
    allocAction
      (UpdateStyle
         [ mkStyleTarget Sample.target1 (Sample.colorChange "rgb(0, 0, 0)" "red" Value);
           mkStyleTarget Sample.targetGone (Sample.colorChange "rgb(0, 0, 0)" "red" Value);
           mkStyleTarget Sample.target2 (Sample.colorChange "rgb(0, 0, 0)" "red" Value) ])
      ∅ in
  let tr :=
    ActionManager.trace
      (ActionManager.final (Sample.dispatch a (ActionManager.mkEditor tt s []))) in
  Sample.frames_get tt (frameId Sample.target2) = Some "frame-2"
  /\ tr = [ ViewRequest "frame-1"
              (CallUpdateStyle "el-1" (Sample.colorChange "rgb(0, 0, 0)" "red" Value))
              (ViewReturned (Some (Sample.snapshot "frame-1" "el-1")));
            ConsoleError "Failed to get frameView" ]
  /\ ActionManager.snapshots tr = [].
Proof. vm_compute. repeat split. Qed.


(** ** The style manager *)

Lemma nonEmpty_Some (o : option string) (v : string) :
  StyleManager.nonEmpty o = Some v -> o = Some v /\ v <> "".
Proof.
  unfold StyleManager.nonEmpty. destruct o as [s|]; [|done].
  destruct (String.eqb_spec s "") as [->|Hne]; [done|].
  intros [= ->]. done.
Qed.

Lemma getDefaultStyleValue_cases (style : string) :
  StyleManager.getDefaultStyleValue style <> ""
  /\ (getProp StyleManager.defaults style = Some (StyleManager.getDefaultStyleValue style)
      \/ StyleManager.getDefaultStyleValue style = "initial").
Proof.
  unfold StyleManager.getDefaultStyleValue.
  destruct (StyleManager.nonEmpty (getProp StyleManager.defaults style)) as [v|] eqn:Hv.
  - apply nonEmpty_Some in Hv as [Hv Hne]. split; [done|by left].
  - split; [done|by right].
Qed.

Lemma getFreshStyleValue_nonempty (selectedEl : DomElement.t) (style : string) :
  StyleManager.getFreshStyleValue selectedEl style <> "".
Proof.
  unfold StyleManager.getFreshStyleValue.
  match goal with
  | |- context [StyleManager.nonEmpty ?o] =>
      destruct (StyleManager.nonEmpty o) as [v|] eqn:Hv
  end.
  - by apply nonEmpty_Some in Hv as [_ Hne].
  - apply getDefaultStyleValue_cases.
Qed.

(** C10: in an action built by [getUpdateStyleAction], every entry of
    the [original] half of every target has type [Value] and a
    non-empty value, which is [getFreshStyleValue] of the selected
    element the target stands for.  When that element has neither a
    defined nor a computed value for the property, the value is the
    default of the table for the property or, for a property the table
    does not list, ["initial"]. *)
Theorem original_half_is_literal (m : StyleManager.t)
    (styles : JsRecord (option string)) (domIds : list string) (ty : StyleChangeType) :
  (forall (t : StyleActionTarget StyleChange) (key : string) (v : StyleChange),
     t ∈ styleTargets (StyleManager.getUpdateStyleAction m styles domIds ty) ->
     (key, v) ∈ original (change t) ->
     type v = Value
     /\ value v <> ""
     /\ exists engine selectedEl,
          StyleManager.editorEngine m = Some engine
          /\ selectedEl ∈ StyleManager.selected engine
          /\ domId (target t) = DomElement.domId selectedEl
          /\ frameId (target t) = DomElement.frameId selectedEl
          /\ value v = StyleManager.getFreshStyleValue selectedEl key)
  /\ (forall (selectedEl : DomElement.t) (style : string),
     (forall st, DomElement.styles selectedEl = Some st ->
        getProp (DomElement.defined st) style = None
        /\ getProp (DomElement.computed st) style = None) ->
     StyleManager.getFreshStyleValue selectedEl style
     = StyleManager.getDefaultStyleValue style
     /\ (getProp StyleManager.defaults style
         = Some (StyleManager.getFreshStyleValue selectedEl style)
         \/ StyleManager.getFreshStyleValue selectedEl style = "initial")).
Proof.
  split.
  - intros t key v Ht Hkv. unfold StyleManager.getUpdateStyleAction in Ht.
    destruct (StyleManager.editorEngine m) as [engine|] eqn:Hengine;
      [|by apply elem_of_nil in Ht].
    simpl in Ht. apply list_elem_of_fmap in Ht as (selectedEl & -> & Hsel).
    simpl in Hkv. apply fromEntries_elem in Hkv.
    apply list_elem_of_fmap in Hkv as (style & Heq & _). inversion Heq; subst.
    simpl. split; [done|]. split; [apply getFreshStyleValue_nonempty|].
    exists engine, selectedEl. repeat split; try done.
    destruct (0 <? length domIds)%nat; [|done].
    by apply list_elem_of_filter in Hsel as [_ ?].
  - intros selectedEl style Hnone.
    assert (StyleManager.getFreshStyleValue selectedEl style
            = StyleManager.getDefaultStyleValue style) as Heq.
    { unfold StyleManager.getFreshStyleValue.
      destruct (DomElement.styles selectedEl) as [st|]; [|done].
      by destruct (Hnone st eq_refl) as [-> ->]. }
    split; [exact Heq|]. rewrite Heq.
    apply getDefaultStyleValue_cases.
Qed.

Lemma original_half_is_literal_witness :
  let el := DomElement.mk "el-1" "frame-1" (Some "oid-1") None None in
  let m :=
    StyleManager.mk (Some (StyleManager.mkEngine [el])) StyleManager.RootMode in
  let styles := [("color", Some "primary"); ("gap", Some "4px")] in
  let v := mkStyleChange "initial" Value in
  type v = Value /\ value v <> ""
  /\ StyleManager.getFreshStyleValue el "gap" = StyleManager.getDefaultStyleValue "gap".
Proof.
  intros el m styles v.
  destruct (original_half_is_literal m styles [] Custom) as [Hentries Hdefault].
  destruct (Hentries
              (mkStyleTarget (mkTarget "frame-1" "el-1" (Some "oid-1"))
                 (mkChange
                    [("color", mkStyleChange "rgb(0, 0, 0)" Value); ("gap", v)]
                    [("color", mkStyleChange "primary" Custom);
                     ("gap", mkStyleChange "4px" Custom)]))
              "gap" v)
    as (Hty & Hne & _).
  - vm_compute. apply list_elem_of_here.
  - simpl. apply list_elem_of_further, list_elem_of_here.
  - split; [exact Hty|]. split; [exact Hne|].
    destruct (Hdefault el "gap") as [Heq _]; [|exact Heq].
    intros st Hst. discriminate Hst.
Defined.

(** ** An open transaction at the time of [undo] *)

Section OpenTransaction.

Context {V : Type}.
Variable undoAction : Action V -> Action V.
Variable updateTransactionActions : list (Action V) -> Action V -> list (Action V).

(** X6: [undo] does not wait for the commit it starts.  With actions
    [a :: rest] buffered, the commit gets as far as pushing [a] before
    [undo] pops: [a] is the action undone, the undo stack is as long as
    before, the redo stack holds [a] alone, and the pushes of [rest] are
    still to come. *)
Lemma undo_in_open_transaction (h : History.HistoryManager V) (a : Action V)
    (rest : list (Action V)) :
  History.inTransaction h = History.InTransaction (a :: rest) ->
  History.undo undoAction updateTransactionActions h
  = (Some (undoAction a),
     History.mkHistory (History.undoStack h) [a] History.NotInTransaction
       (History.effects h ++ [History.CodeWrite a])
       (History.suspended h ++ [(a, rest)])).
Proof.
  intros Hin.
  unfold History.undo, History.commitTransaction_detached,
    History.commitTransaction_enter.
  rewrite Hin. cbn -[pop]. rewrite pop_snoc.
  by destruct (History.redoStack h).
Qed.

(** When the suspended commit resumes, the remaining actions are pushed
    one write at a time; each push empties the redo stack again. *)
Lemma resume_after_undo (h : History.HistoryManager V) (a b : Action V)
    (rest : list (Action V)) :
  History.inTransaction h = History.NotInTransaction ->
  History.suspended h = [(a, b :: rest)] ->
  History.resume updateTransactionActions h
  = History.mkHistory (History.undoStack h ++ [b]) [] History.NotInTransaction
      (History.effects h ++ History.analytics a ++ [History.CodeWrite b])
      [(b, rest)].
Proof.
  intros Hout Hsusp. unfold History.resume, History.commit_resume. rewrite Hsusp.
  simpl. unfold History.push_enter. simpl. rewrite Hout. simpl.
  rewrite <- app_assoc. by destruct (History.redoStack h).
Qed.

End OpenTransaction.

(** ** More on the history manager *)

Section HistoryRoundTrips.

Context {V : Type}.
Variable undoAction : Action V -> Action V.
Variable transformRedoAction : Action V -> Action V.
Variable updateTransactionActions : list (Action V) -> Action V -> list (Action V).

Local Abbreviation push := (History.push updateTransactionActions).
Local Abbreviation commitTransaction := (History.commitTransaction updateTransactionActions).
Local Abbreviation undo := (History.undo undoAction updateTransactionActions).
Local Abbreviation redo := (History.redo transformRedoAction updateTransactionActions).

(** What [undo] and [redo] see once the commit they start has returned,
    when nothing was buffered. *)
Lemma settled_state (h : History.HistoryManager V) :
  History.buffered h = [] ->
  match History.inTransaction h with
  | History.InTransaction _ =>
      History.commitTransaction_detached updateTransactionActions h
  | History.NotInTransaction => h
  end
  = History.mkHistory (History.undoStack h) (History.redoStack h)
      History.NotInTransaction (History.effects h) (History.suspended h).
Proof.
  destruct h as [u r t e s]. unfold History.buffered. simpl.
  destruct t as [acts|]; intros Hb; [subst acts|]; simpl.
  - unfold History.commitTransaction_detached, History.commitTransaction_enter. simpl.
    by rewrite app_nil_r.
  - done.
Qed.

(** X1: [undo] followed by [redo]: the redo stack is back to what it was,
    and the undo stack too, except that its top entry has gone through
    [transformRedoAction]. *)
Theorem undo_then_redo (h : History.HistoryManager V) (init : list (Action V))
    (top : Action V) :
  History.buffered h = [] ->
  History.undoStack h = init ++ [top] ->
  exists h1 h2,
    undo h = (Some (undoAction top), h1)
    /\ redo h1 = (Some (transformRedoAction top), h2)
    /\ History.undoStack h2 = init ++ [transformRedoAction top]
    /\ History.redoStack h2 = History.redoStack h
    /\ History.effects h2 = History.effects h.
Proof.
  intros Hb Hu. unfold History.undo. rewrite (settled_state h Hb). cbn -[pop].
  rewrite Hu, pop_snoc. eexists _, _. split; [reflexivity|].
  unfold History.redo. cbn -[pop]. rewrite pop_snoc. split; [reflexivity|]. done.
Qed.

(** X2: [redo] followed by [undo]: the undo stack is back to what it was;
    the redo stack has the transformed action on top where the stored
    one was, and the action handed out to be applied is the inverse of
    the transformed action. *)
Theorem redo_then_undo (h : History.HistoryManager V) (init : list (Action V))
    (top : Action V) :
  History.buffered h = [] ->
  History.redoStack h = init ++ [top] ->
  exists h1 h2,
    redo h = (Some (transformRedoAction top), h1)
    /\ undo h1 = (Some (undoAction (transformRedoAction top)), h2)
    /\ History.undoStack h2 = History.undoStack h
    /\ History.redoStack h2 = init ++ [transformRedoAction top]
    /\ History.effects h2 = History.effects h.
Proof.
  intros Hb Hr. unfold History.redo. rewrite (settled_state h Hb). cbn -[pop].
  rewrite Hr, pop_snoc. eexists _, _. split; [reflexivity|].
  unfold History.undo. cbn -[pop]. rewrite pop_snoc. split; [reflexivity|]. done.
Qed.

(** X3: with an empty stack and nothing buffered, [undo] and [redo] return
    [null]: no stack changes and nothing is written. *)
Theorem nothing_to_undo_or_redo (h : History.HistoryManager V) :
  History.buffered h = [] ->
  (History.undoStack h = [] ->
     exists h', undo h = (None, h')
       /\ History.undoStack h' = [] /\ History.redoStack h' = History.redoStack h
       /\ History.effects h' = History.effects h)
  /\ (History.redoStack h = [] ->
     exists h', redo h = (None, h')
       /\ History.redoStack h' = [] /\ History.undoStack h' = History.undoStack h
       /\ History.effects h' = History.effects h).
Proof.
  intros Hb. split; intros Hempty.
  - unfold History.undo. rewrite (settled_state h Hb). cbn -[pop].
    rewrite Hempty, pop_nil. by eexists.
  - unfold History.redo. rewrite (settled_state h Hb). cbn -[pop].
    rewrite Hempty, pop_nil. by eexists.
Qed.

(** X4: while a transaction is open, pushing any number of actions changes
    neither stack and writes nothing: the redo stack survives until the
    commit, and the transaction stays open. *)
Theorem buffered_pushes_are_silent (acts buffer : list (Action V))
    (h : History.HistoryManager V) :
  History.inTransaction h = History.InTransaction buffer ->
  let h' := fold_left (fun h0 a => push a h0) acts h in
  History.undoStack h' = History.undoStack h
  /\ History.redoStack h' = History.redoStack h
  /\ History.effects h' = History.effects h
  /\ History.isInTransaction h' = true.
Proof.
  revert buffer h. induction acts as [|a acts IH]; intros buffer h Hin; simpl.
  - unfold History.isInTransaction. by rewrite Hin.
  - assert (push a h =
            History.mkHistory (History.undoStack h) (History.redoStack h)
              (History.InTransaction (updateTransactionActions buffer a))
              (History.effects h) (History.suspended h)) as ->.
    { unfold History.push, History.push_enter. by rewrite Hin. }
    match goal with
    | |- context [fold_left _ acts ?h1] =>
        destruct (IH (updateTransactionActions buffer a) h1 eq_refl)
          as (Hu & Hr & He & Ht)
    end.
    done.
Qed.

(** Pushing a run of actions outside a transaction writes each of them
    to the code writer once, in order, each followed by its analytics
    event. *)
Lemma push_all_effects (acts : list (Action V)) (h : History.HistoryManager V) :
  History.inTransaction h = History.NotInTransaction ->
  let h' := fold_left (fun h0 a => push a h0) acts h in
  History.effects h'
  = History.effects h
      ++ flat_map (fun a => History.CodeWrite a :: History.analytics a) acts
  /\ History.redoStack h' = match acts with [] => History.redoStack h | _ => [] end.
Proof.
  revert h. induction acts as [|a acts IH]; intros h Hout; simpl.
  - by rewrite app_nil_r.
  - assert (History.inTransaction (push a h) = History.NotInTransaction
            /\ History.effects (push a h)
               = History.effects h ++ History.CodeWrite a :: History.analytics a
            /\ History.redoStack (push a h) = []) as (Ht & He & Hr).
    { unfold History.push, History.push_enter. rewrite Hout. simpl.
      rewrite <- app_assoc. by destruct (History.redoStack h). }
    destruct (IH (push a h) Ht) as [He' Hr']. rewrite He', He, <- app_assoc. simpl.
    split; [done|]. rewrite Hr', Hr. by destruct acts.
Qed.

(** X5: the awaited [commitTransaction] writes every buffered action to the
    code writer exactly once, in buffer order, and empties the redo
    stack; with an empty buffer it writes nothing and the redo stack is
    kept. *)
Theorem commit_writes_each_action_once (h : History.HistoryManager V)
    (actions : list (Action V)) :
  History.inTransaction h = History.InTransaction actions ->
  History.effects (commitTransaction h)
  = History.effects h
      ++ flat_map (fun a => History.CodeWrite a :: History.analytics a) actions
  /\ History.redoStack (commitTransaction h)
     = match actions with [] => History.redoStack h | _ => [] end.
Proof.
  intros Hin. unfold History.commitTransaction. rewrite Hin.
  match goal with
  | |- context [fold_left _ actions ?c] =>
      destruct (push_all_effects actions c eq_refl) as [He Hr]
  end.
  simpl in He, Hr. by rewrite He, Hr.
Qed.

(** X7: an [undo] on an open transaction that holds two actions or more,
    followed by the resumption of the commit it started: the action
    that was undone is on neither stack any more, so it cannot be
    redone, and the next buffered action is on top of the undo stack. *)
Theorem undone_action_lost_on_resume (h : History.HistoryManager V)
    (a b : Action V) (rest : list (Action V)) :
  History.inTransaction h = History.InTransaction (a :: b :: rest) ->
  History.suspended h = [] ->
  exists h1,
    undo h = (Some (undoAction a), h1)
    /\ History.redoStack h1 = [a]
    /\ History.undoStack (History.resume updateTransactionActions h1)
       = History.undoStack h ++ [b]
    /\ History.redoStack (History.resume updateTransactionActions h1) = []
    /\ History.canRedo (History.resume updateTransactionActions h1) = false.
Proof.
  intros Hin Hs. unfold History.undo, History.commitTransaction_detached,
    History.commitTransaction_enter.
  rewrite Hin. cbn -[pop]. rewrite pop_snoc, Hs.
  assert ((if (0 <? length (History.redoStack h))%nat then [] else History.redoStack h)
          = []) as Hredo by (by destruct (History.redoStack h)).
  cbn in Hredo. rewrite Hredo. eexists. split; [reflexivity|].
  split; [done|]. unfold History.resume, History.commit_resume. simpl. done.
Qed.

(** A commit suspended in the push of [a], with [rest] still to push,
    needs one resumption per action to finish. *)
Lemma resume_drains (rest : list (Action V)) (a : Action V)
    (u r : list (Action V)) (e : list (History.Effect V)) :
  Nat.iter (S (length rest)) (History.resume updateTransactionActions)
    (History.mkHistory u r History.NotInTransaction e [(a, rest)])
  = fold_left (fun h0 x => push x h0) rest
      (History.mkHistory u r History.NotInTransaction (e ++ History.analytics a) []).
Proof.
  revert a u r e. induction rest as [|b rest IH]; intros a u r e.
  - reflexivity.
  - change (length (b :: rest)) with (S (length rest)).
    rewrite Nat.iter_succ_r.
    assert (History.resume updateTransactionActions
              (History.mkHistory u r History.NotInTransaction e [(a, b :: rest)])
            = History.mkHistory (u ++ [b])
                (if (0 <? length r)%nat then [] else r) History.NotInTransaction
                ((e ++ History.analytics a) ++ [History.CodeWrite b])
                [(b, rest)]) as -> by reflexivity.
    rewrite IH. reflexivity.
Qed.

(** X8: started without [await] and then resumed once per buffered action,
    with nothing else touching the manager in between,
    [commitTransaction] ends in the state the awaited call ends in. *)
Theorem detached_commit_catches_up (h : History.HistoryManager V)
    (actions : list (Action V)) :
  History.inTransaction h = History.InTransaction actions ->
  History.suspended h = [] ->
  Nat.iter (length actions) (History.resume updateTransactionActions)
    (History.commitTransaction_detached updateTransactionActions h)
  = commitTransaction h.
Proof.
  intros Hin Hs. destruct h as [u r t e s]. simpl in *. subst t s.
  destruct actions as [|a rest]; [reflexivity|].
  assert (History.commitTransaction_detached updateTransactionActions
            (History.mkHistory u r (History.InTransaction (a :: rest)) e [])
          = History.mkHistory (u ++ [a])
              (if (0 <? length r)%nat then [] else r) History.NotInTransaction
              (e ++ [History.CodeWrite a]) [(a, rest)]) as -> by reflexivity.
  change (length (a :: rest)) with (S (length rest)).
  rewrite resume_drains. reflexivity.
Qed.

End HistoryRoundTrips.

(** ** More on the dispatcher *)

Section DispatcherInvariants.

Variable World : Type.
Variable FrameData : Type.
Variable frames_get : World -> string -> option FrameData.
Variable view : FrameData -> ViewCall -> World -> ViewResult * World.
Variable getColorByName : string -> option string.

Import ActionManager.

Local Abbreviation Editor := (ActionManager.Editor World).
Local Abbreviation mapEntries := (ActionManager.mapEntries World getColorByName).
Local Abbreviation callView := (ActionManager.callView World FrameData view).
Local Abbreviation updateStyle_loop :=
  (ActionManager.updateStyle_loop World FrameData frames_get view getColorByName).
Local Abbreviation updateStyle :=
  (ActionManager.updateStyle World FrameData frames_get view getColorByName).
Local Abbreviation insertElement :=
  (ActionManager.insertElement World FrameData frames_get view).
Local Abbreviation removeElement :=
  (ActionManager.removeElement World FrameData frames_get view).
Local Abbreviation moveElement :=
  (ActionManager.moveElement World FrameData frames_get view).
Local Abbreviation editText :=
  (ActionManager.editText World FrameData frames_get view).
Local Abbreviation groupElements :=
  (ActionManager.groupElements World FrameData frames_get view).
Local Abbreviation ungroupElements :=
  (ActionManager.ungroupElements World FrameData frames_get view).
Local Abbreviation forEachImageTarget :=
  (ActionManager.forEachImageTarget World FrameData frames_get).
Local Abbreviation dispatch :=
  (ActionManager.dispatch World FrameData frames_get view getColorByName).

Lemma callView_result (frame : string) (frameData : FrameData) (call : ViewCall)
    (st : Editor) :
  exists r st1,
    callView frame frameData call st = (r, st1)
    /\ r = fst (view frameData call (world st))
    /\ world st1 = snd (view frameData call (world st))
    /\ store st1 = store st
    /\ trace st1 = trace st ++ [ViewRequest frame call r].
Proof.
  unfold ActionManager.callView. destruct (view frameData call (world st)) as [r w].
  by eexists _, _.
Qed.

Ltac call_view :=
  match goal with
  | |- context [ActionManager.callView ?W ?F ?v ?f ?fd ?c ?s] =>
      let r := fresh "r" in
      let st1 := fresh "st1" in
      let Hr := fresh "Hr" in
      let Hw := fresh "Hw" in
      let Hs := fresh "Hs" in
      let Ht := fresh "Ht" in
      destruct (callView_result f fd c s) as (r & st1 & -> & Hr & Hw & Hs & Ht)
  end.

Lemma insertElement_cons (t : ActionTarget) (rest : list ActionTarget)
    (element : string) (location : ActionLocation) (st : Editor) :
  insertElement (t :: rest) element location st =
  match frames_get (world st) (frameId t) with
  | None => Returned (emit (ConsoleError "Failed to get frameView") st)
  | Some frameView =>
      let (r, st1) :=
        callView (frameId t) frameView (CallInsertElement element location) st in
      match r with
      | ViewThrew err =>
          insertElement rest element location
            (emit (ConsoleError ("Error inserting element: " +:+ err)) st1)
      | ViewReturned None => Returned (emit (ConsoleError "Failed to insert element") st1)
      | ViewReturned (Some domEl) =>
          insertElement rest element location
            (refreshAndClickMutatedElement World domEl st1)
      end
  end.
Proof. reflexivity. Qed.

Lemma editText_cons (t : ActionTarget) (rest : list ActionTarget)
    (newContent : string) (st : Editor) :
  editText (t :: rest) newContent st =
  match frames_get (world st) (frameId t) with
  | None => Returned (emit (ConsoleError "Failed to get frameView") st)
  | Some frameView =>
      let (r, st1) :=
        callView (frameId t) frameView (CallEditText (domId t) newContent) st in
      match r with
      | ViewThrew err => Rejected err st1
      | ViewReturned None => Returned (emit (ConsoleError "Failed to edit text") st1)
      | ViewReturned (Some domEl) =>
          editText rest newContent (refreshAndClickMutatedElement World domEl st1)
      end
  end.
Proof. reflexivity. Qed.

(** X9: [insertElement] catches what the view throws: whatever the view
    does, no exception escapes the handler.  It logs the error and goes
    on with the next target. *)
Theorem insertElement_never_rejects (targets : list ActionTarget) (element : string)
    (location : ActionLocation) (st : Editor) :
  settled (insertElement targets element location st).
Proof.
  revert st. induction targets as [|t rest IH]; intros st; [done|].
  rewrite insertElement_cons.
  destruct (frames_get (world st) (frameId t)) as [frameView|]; [|done].
  call_view. destruct r as [[domEl|]|err]; [apply IH|done|apply IH].
Qed.

Lemma updateStyle_loop_settled (targets : list (StyleActionTarget loc))
    (domEls : list DomElement.t) (st : Editor) :
  quiet view -> settled (updateStyle_loop targets domEls st).
Proof.
  intros Hq. revert domEls st. induction targets as [|t rest IH]; intros domEls st;
    [done|].
  rewrite (updateStyle_loop_cons World FrameData frames_get view getColorByName).
  destruct (frames_get (world st) (frameId (target t))) as [frameData|]; [|done].
  destruct (mapEntries (updated (change t)) st) as [entries st0].
  call_view. destruct r as [[domEl|]|err]; [apply IH|apply IH|].
  by destruct (Hq _ _ _ _ (eq_sym Hr)).
Qed.

Lemma removeElement_settled (targets : list ActionTarget) (location : ActionLocation)
    (st : Editor) :
  quiet view -> settled (removeElement targets location st).
Proof.
  intros Hq. revert st. induction targets as [|t rest IH]; intros st; [done|].
  rewrite (removeElement_cons World FrameData frames_get view).
  destruct (frames_get (world st) (frameId t)) as [frameView|]; [|done].
  call_view. destruct r as [[domEl|]|err]; [apply IH|done|].
  by destruct (Hq _ _ _ _ (eq_sym Hr)).
Qed.

Lemma moveElement_settled (targets : list ActionTarget) (location : ActionLocation)
    (st : Editor) :
  quiet view -> settled (moveElement targets location st).
Proof.
  intros Hq. revert st. induction targets as [|t rest IH]; intros st; [done|].
  rewrite (moveElement_cons World FrameData frames_get view).
  destruct (frames_get (world st) (frameId t)) as [frameView|]; [|done].
  call_view. destruct r as [[domEl|]|err]; [apply IH|done|].
  by destruct (Hq _ _ _ _ (eq_sym Hr)).
Qed.

Lemma editText_settled (targets : list ActionTarget) (newContent : string)
    (st : Editor) :
  quiet view -> settled (editText targets newContent st).
Proof.
  intros Hq. revert st. induction targets as [|t rest IH]; intros st; [done|].
  rewrite editText_cons.
  destruct (frames_get (world st) (frameId t)) as [frameView|]; [|done].
  call_view. destruct r as [[domEl|]|err]; [apply IH|done|].
  by destruct (Hq _ _ _ _ (eq_sym Hr)).
Qed.

(** X10: as long as the view does not throw, [dispatch] completes for every
    action: a missing frame or a [null] result ends a handler, never
    the dispatch. *)
Theorem dispatch_completes (action : Action loc) (st : Editor) :
  quiet view -> exists st', dispatch action st = Completed tt st'.
Proof.
  intros Hq.
  assert (forall o : Outcome World unit,
            settled o ->
            exists st', match o with
                        | Completed _ s => Completed tt s
                        | Returned s => Completed tt s
                        | Rejected err s => Rejected err s
                        end = Completed tt st') as Hdone.
  { intros [? s|s|? s] Ho; [by eexists|by eexists|done]. }
  unfold ActionManager.dispatch. apply Hdone.
  destruct action as [ts|ts l e b|ts l e|ts l|ts o n|p c ch|p c ch|d|ts i|ts i].
  - unfold ActionManager.updateStyle.
    pose proof (updateStyle_loop_settled ts [] st Hq) as Hs.
    by destruct (updateStyle_loop ts [] st).
  - apply insertElement_never_rejects.
  - by apply removeElement_settled.
  - by apply moveElement_settled.
  - by apply editText_settled.
  - unfold ActionManager.groupElements.
    destruct (frames_get (world st) (frameId p)) as [frameView|]; [|done].
    call_view. destruct r as [[domEl|]|err]; [done|done|].
    by destruct (Hq _ _ _ _ (eq_sym Hr)).
  - unfold ActionManager.ungroupElements.
    destruct (frames_get (world st) (frameId p)) as [frameView|]; [|done].
    call_view. destruct r as [[domEl|]|err]; [done|done|].
    by destruct (Hq _ _ _ _ (eq_sym Hr)).
  - done.
  - done.
  - done.
Qed.

(** X11: [insertImage] and [removeImage] never reach a view.  They log one
    error for each target whose frame is gone and go through all the
    targets all the same; nothing else changes. *)
Theorem image_actions_skip_per_target (targets : list ActionTarget) (image : string)
    (st : Editor) :
  let errors :=
    flat_map (fun t =>
      match frames_get (world st) (frameId t) with
      | None => [ConsoleError "Failed to get frameView"]
      | Some _ => []
      end) targets in
  dispatch (InsertImage targets image) st
  = Completed tt (mkEditor (world st) (store st) (trace st ++ errors))
  /\ dispatch (RemoveImage targets image) st
     = Completed tt (mkEditor (world st) (store st) (trace st ++ errors))
  /\ requests errors = [].
Proof.
  assert (forall st0 : Editor,
            forEachImageTarget targets st0
            = mkEditor (world st0) (store st0)
                (trace st0
                   ++ flat_map (fun t =>
                        match frames_get (world st0) (frameId t) with
                        | None => [ConsoleError "Failed to get frameView"]
                        | Some _ => []
                        end) targets)) as Hloop.
  { induction targets as [|t rest IH]; intros st0; simpl.
    - rewrite app_nil_r. by destruct st0.
    - destruct (frames_get (world st0) (frameId t)) as [frameView|]; rewrite IH; simpl.
      + done.
      + by rewrite <- app_assoc. }
  simpl. unfold ActionManager.dispatch, ActionManager.insertImage,
    ActionManager.removeImage. rewrite Hloop. split; [done|]. split; [done|].
  clear Hloop. induction targets as [|t rest IH]; [done|]. simpl.
  rewrite (requests_app _ _). rewrite IH.
  by destruct (frames_get (world st) (frameId t)).
Qed.

Lemma visited_literal (v : StyleChange) :
  type v = Value -> visited getColorByName v = v.
Proof. intros Hty. unfold visited. by rewrite Hty. Qed.

Lemma updateStyle_loop_store (targets : list (StyleActionTarget loc))
    (domEls : list DomElement.t) (st : Editor) (l : loc) :
  (forall t key, t ∈ targets -> (key, l) ∉ updated (change t))
  \/ (forall v, store st !! l = Some v -> type v = Value) ->
  store (final (updateStyle_loop targets domEls st)) !! l = store st !! l.
Proof.
  revert domEls st. induction targets as [|t rest IH]; intros domEls st Hcond; [done|].
  rewrite (updateStyle_loop_cons World FrameData frames_get view getColorByName).
  destruct (frames_get (world st) (frameId (target t))) as [frameData|]; [|done].
  pose proof (mapEntries_spec World getColorByName (updated (change t)) st)
    as (_ & _ & Hs0 & _).
  destruct (mapEntries (updated (change t)) st) as [entries st0]. simpl in Hs0.
  assert (store st0 !! l = store st !! l) as Hkeep.
  { rewrite Hs0. case_decide as Hin; [|done].
    destruct Hcond as [Hfree|Hlit].
    - apply list_elem_of_fmap in Hin as ([key l'] & -> & Hin).
      destruct (Hfree t key (list_elem_of_here _ _) Hin).
    - destruct (store st !! l) as [v|]; [|done]. simpl.
      by rewrite visited_literal by (by apply Hlit). }
  call_view.
  assert (forall st2 : Editor,
            store st2 = store st1 ->
            (forall t' key, t' ∈ rest -> (key, l) ∉ updated (change t'))
            \/ (forall v, store st2 !! l = Some v -> type v = Value)) as Hnext.
  { intros st2 Hst2. destruct Hcond as [Hfree|Hlit].
    - left. intros t' key Ht'. apply Hfree. by apply list_elem_of_further.
    - right. intros v. rewrite Hst2, Hs, Hkeep. apply Hlit. }
  destruct r as [[domEl|]|err].
  - rewrite IH by (by apply Hnext). by rewrite Hs, Hkeep.
  - rewrite IH by (by apply Hnext). simpl. by rewrite Hs, Hkeep.
  - simpl. by rewrite Hs, Hkeep.
Qed.

Lemma structural_store (action : Action loc) (st : Editor) :
  styleTargets action = [] -> store (final (dispatch action st)) = store st.
Proof.
  assert (forall o : Outcome World unit,
            final (match o with
                   | Completed _ s => Completed tt s
                   | Returned s => Completed tt s
                   | Rejected err s => Rejected err s
                   end) = final o) as Hfinal by (by intros [? s|s|? s]).
  intros Hstyle. unfold ActionManager.dispatch. rewrite Hfinal.
  destruct action as [ts|ts l e b|ts l e|ts l|ts o n|p c ch|p c ch|d|ts i|ts i].
  - simpl in Hstyle. by subst ts.
  - revert st. induction ts as [|t rest IH]; intros st; [done|].
    rewrite insertElement_cons.
    destruct (frames_get (world st) (frameId t)) as [frameView|]; [|done].
    call_view. destruct r as [[domEl|]|err]; rewrite ?IH; done.
  - revert st. induction ts as [|t rest IH]; intros st; [done|].
    rewrite (removeElement_cons World FrameData frames_get view).
    destruct (frames_get (world st) (frameId t)) as [frameView|]; [|done].
    call_view. destruct r as [[domEl|]|err]; rewrite ?IH; done.
  - revert st. induction ts as [|t rest IH]; intros st; [done|].
    rewrite (moveElement_cons World FrameData frames_get view).
    destruct (frames_get (world st) (frameId t)) as [frameView|]; [|done].
    call_view. destruct r as [[domEl|]|err]; rewrite ?IH; done.
  - revert st. induction ts as [|t rest IH]; intros st; [done|].
    rewrite editText_cons.
    destruct (frames_get (world st) (frameId t)) as [frameView|]; [|done].
    call_view. destruct r as [[domEl|]|err]; rewrite ?IH; done.
  - unfold ActionManager.groupElements.
    destruct (frames_get (world st) (frameId p)) as [frameView|]; [|done].
    call_view. by destruct r as [[domEl|]|err].
  - unfold ActionManager.ungroupElements.
    destruct (frames_get (world st) (frameId p)) as [frameView|]; [|done].
    call_view. by destruct r as [[domEl|]|err].
  - done.
  - simpl. clear Hstyle. revert st. induction ts as [|t rest IH]; intros st; [done|].
    simpl. destruct (frames_get (world st) (frameId t)); by rewrite IH.
  - simpl. clear Hstyle. revert st. induction ts as [|t rest IH]; intros st; [done|].
    simpl. destruct (frames_get (world st) (frameId t)); by rewrite IH.
Qed.

(** X12: what a dispatch may write in the store of [StyleChange] objects: an
    object is left as it was unless it is a [Custom] entry of the
    [updated] half of a target of the action.  Literal entries, the
    [original] halves, the objects of other actions and every object
    during a structural action keep their content. *)
Theorem dispatch_store_frame (action : Action loc) (st : Editor) (l : loc) :
  (forall t key, t ∈ styleTargets action -> (key, l) ∉ updated (change t))
  \/ (forall v, store st !! l = Some v -> type v = Value) ->
  store (final (dispatch action st)) !! l = store st !! l.
Proof.
  intros Hcond. destruct action as [ts| | | | | | | | |];
    try (by rewrite structural_store).
  unfold ActionManager.dispatch, ActionManager.updateStyle.
  pose proof (updateStyle_loop_store ts [] st l Hcond) as Hloop.
  by destruct (updateStyle_loop ts [] st).
Qed.

(** X13: a second pass of the callback over the same entries changes no
    object: what the first pass resolved stays resolved, what it could
    not resolve stays as it is. *)
Theorem token_resolution_settles (entries : list (string * loc)) (st : Editor) :
  store (snd (mapEntries entries (snd (mapEntries entries st))))
  = store (snd (mapEntries entries st)).
Proof.
  pose proof (mapEntries_spec World getColorByName entries st) as (_ & _ & Hs1 & _).
  pose proof (mapEntries_spec World getColorByName entries
                (snd (mapEntries entries st))) as (_ & _ & Hs2 & _).
  apply map_eq. intros l. rewrite Hs2, Hs1. case_decide; [|done].
  destruct (store st !! l) as [v|]; [|done]. simpl.
  by rewrite (visited_idempotent getColorByName).
Qed.

Lemma styleRequests_app (tr1 tr2 : list Event) :
  styleRequests (tr1 ++ tr2) = styleRequests tr1 ++ styleRequests tr2.
Proof. unfold styleRequests. apply omap_app. Qed.

Lemma returned_app (tr1 tr2 : list Event) :
  returned (tr1 ++ tr2) = returned tr1 ++ returned tr2.
Proof. unfold returned. apply flat_map_app. Qed.

(** The callback adds warnings to the trace and nothing else. *)
Lemma mapEntries_warns (entries : list (string * loc)) (st : Editor) :
  exists warns,
    trace (snd (mapEntries entries st)) = trace st ++ warns
    /\ styleRequests warns = [] /\ returned warns = [] /\ snapshots warns = [].
Proof.
  revert st. induction entries as [|[key l] entries IH]; intros st.
  - exists []. simpl. by rewrite app_nil_r.
  - rewrite (mapEntries_cons World getColorByName).
    pose proof (convertEntry_spec World getColorByName key l st) as (_ & _ & _ & Ht).
    destruct (ActionManager.convertEntry World getColorByName (key, l) st)
      as [kv st1].
    simpl in Ht. destruct (IH st1) as (warns & Ht1 & Hq1 & Hr1 & Hs1).
    destruct (mapEntries entries st1) as [rest st2]. simpl in *.
    eexists. rewrite Ht1, Ht, <- app_assoc. split; [reflexivity|].
    rewrite styleRequests_app, returned_app, snapshots_app, Hq1, Hr1, Hs1, !app_nil_r.
    destruct (store st !! l) as [v|]; [|done].
    unfold warning.
    by destruct (type v), (truthy (getColorByName (value v))),
      (isLiteralColor (value v)).
Qed.

Lemma updateStyle_loop_requests (targets : list (StyleActionTarget loc))
    (domEls : list DomElement.t) (st : Editor) :
  quiet view ->
  (forall w t, t ∈ targets -> frames_get w (frameId (target t)) <> None) ->
  exists evs st',
    updateStyle_loop targets domEls st = Completed (domEls ++ returned evs) st'
    /\ trace st' = trace st ++ evs
    /\ styleRequests evs
       = map (fun t => (frameId (target t), domId (target t))) targets
    /\ snapshots evs = [].
Proof.
  intros Hq. revert domEls st.
  induction targets as [|t rest IH]; intros domEls st Hframes.
  - exists [], st. simpl. by rewrite !app_nil_r.
  - rewrite (updateStyle_loop_cons World FrameData frames_get view getColorByName).
    destruct (frames_get (world st) (frameId (target t))) as [frameData|] eqn:Hf;
      [|by destruct (Hframes (world st) t (list_elem_of_here _ _))].
    destruct (mapEntries_warns (updated (change t)) st)
      as (warns & Ht0 & Hq0 & Hr0 & Hs0).
    destruct (mapEntries (updated (change t)) st) as [entries st0]. simpl in Ht0.
    call_view.
    assert (forall w t', t' ∈ rest -> frames_get w (frameId (target t')) <> None)
      as Hrest by (intros w t' Ht'; apply Hframes; by apply list_elem_of_further).
    destruct r as [[domEl|]|err].
    + destruct (IH (domEls ++ [domEl]) st1 Hrest) as (evs & st' & -> & Htr & Hrq & Hsn).
      match type of Ht with
      | _ = _ ++ [?ev] => exists (warns ++ [ev] ++ evs), st'
      end.
      rewrite Htr, Ht, Ht0, !returned_app, !styleRequests_app, !snapshots_app,
        Hr0, Hq0, Hs0, <- !app_assoc.
      unfold returned, styleRequests, snapshots in *. simpl.
      split; [done|]. split; [done|]. split; [f_equal; exact Hrq | exact Hsn].
    + destruct (IH domEls (emit (ConsoleError "Failed to update style") st1) Hrest)
        as (evs & st' & -> & Htr & Hrq & Hsn).
      match type of Ht with
      | _ = _ ++ [?ev] =>
          exists (warns ++ [ev; ConsoleError "Failed to update style"] ++ evs), st'
      end.
      rewrite Htr. simpl. rewrite Ht, Ht0, !returned_app, !styleRequests_app,
        !snapshots_app, Hr0, Hq0, Hs0, <- !app_assoc.
      unfold returned, styleRequests, snapshots in *. simpl.
      split; [done|]. split; [done|]. split; [f_equal; exact Hrq | exact Hsn].
    + by destruct (Hq _ _ _ _ (eq_sym Hr)).
Qed.

(** X14: as long as the frames of its targets are mounted and the view does
    not throw, [updateStyle] sends one request per target, in order, a
    [null] result for one target not keeping the others from theirs;
    it ends with one refresh, made with exactly the snapshots the view
    returned, in order. *)
Theorem updateStyle_one_request_per_target (targets : list (StyleActionTarget loc))
    (st : Editor) :
  quiet view ->
  (forall w t, t ∈ targets -> frames_get w (frameId (target t)) <> None) ->
  exists evs st',
    updateStyle targets st = Completed tt st'
    /\ trace st' = trace st ++ evs ++ [RefreshDomElement (returned evs)]
    /\ styleRequests evs
       = map (fun t => (frameId (target t), domId (target t))) targets
    /\ snapshots evs = [].
Proof.
  intros Hq Hframes. unfold ActionManager.updateStyle.
  destruct (updateStyle_loop_requests targets [] st Hq Hframes)
    as (evs & st' & -> & Htr & Hrq & Hsn).
  eexists evs, _. split; [reflexivity|]. simpl. by rewrite Htr, <- app_assoc.
Qed.

End DispatcherInvariants.

(** ** The runner *)

Section RunnerFacts.

Variable World : Type.
Variable FrameData : Type.
Variable frames_get : World -> string -> option FrameData.
Variable view : FrameData -> ViewCall -> World -> ViewResult * World.
Variable getColorByName : string -> option string.
Variable undoAction : Action loc -> Action loc.
Variable transformRedoAction : Action loc -> Action loc.
Variable updateTransactionActions :
  list (Action loc) -> Action loc -> list (Action loc).

Local Abbreviation Engine := (ActionManager.Engine World).
Local Abbreviation dispatch :=
  (ActionManager.dispatch World FrameData frames_get view getColorByName).
Local Abbreviation run :=
  (ActionManager.run World FrameData frames_get view getColorByName
     updateTransactionActions).
Local Abbreviation undo :=
  (ActionManager.undo World FrameData frames_get view getColorByName undoAction
     updateTransactionActions).
Local Abbreviation redo :=
  (ActionManager.redo World FrameData frames_get view getColorByName
     transformRedoAction updateTransactionActions).


(** X16: with nothing on the stack and no transaction open, the runner's
    [undo] and [redo] do nothing at all: no dispatch, no code write, no
    analytics event. *)
Theorem runner_nothing_to_do (e : Engine) :
  History.inTransaction (ActionManager.history e) = History.NotInTransaction ->
  (History.undoStack (ActionManager.history e) = [] -> undo e = e)
  /\ (History.redoStack (ActionManager.history e) = [] -> redo e = e).
Proof.
  destruct e as [[u r t eff s] ed]. simpl. intros ->. split; intros ->; reflexivity.
Qed.

(** X17: the runner's [undo] with an action to undo: the history moves the
    action from the undo stack to the redo stack, and its inverse is
    dispatched.  The inverse is then written to the code writer and an
    ['undo'] event is sent, unless the view threw during the dispatch:
    then nothing is written, while the stacks have moved all the same. *)
Theorem runner_undo_applies_inverse (e : Engine) (init : list (Action loc))
    (top : Action loc) :
  History.inTransaction (ActionManager.history e) = History.NotInTransaction ->
  History.undoStack (ActionManager.history e) = init ++ [top] ->
  let o := dispatch (undoAction top) (ActionManager.editor e) in
  History.undoStack (ActionManager.history (undo e)) = init
  /\ History.redoStack (ActionManager.history (undo e))
     = History.redoStack (ActionManager.history e) ++ [top]
  /\ ActionManager.editor (undo e) = ActionManager.final o
  /\ History.effects (ActionManager.history (undo e))
     = History.effects (ActionManager.history e)
         ++ match o with
            | ActionManager.Rejected _ _ => []
            | _ => [History.CodeWrite (undoAction top); History.SendAnalytics "undo"]
            end.
Proof.
  destruct e as [[u r t eff s] ed]. simpl. intros -> ->.
  unfold ActionManager.undo, History.undo.
  cbn [ActionManager.history ActionManager.editor History.inTransaction
       History.undoStack History.redoStack History.effects History.suspended].
  rewrite pop_snoc.
  destruct (dispatch (undoAction top) ed) as [[] st|st|err st]; simpl;
    rewrite ?app_nil_r; done.
Qed.

End RunnerFacts.

(** ** More on records *)

Lemma getProp_setProp_eq {T : Type} (r : JsRecord T) (k : string) (v : T) :
  getProp (setProp r k v) k = Some v.
Proof.
  induction r as [|[k' v'] r IH]; simpl.
  - by rewrite String.eqb_refl.
  - destruct (String.eqb_spec k' k) as [->|Hne]; simpl.
    + by rewrite String.eqb_refl.
    + by destruct (String.eqb_spec k' k).
Qed.

Lemma getProp_setProp_ne {T : Type} (r : JsRecord T) (k k' : string) (v : T) :
  k <> k' -> getProp (setProp r k v) k' = getProp r k'.
Proof.
  intros Hne. induction r as [|[k0 v0] r IH]; simpl.
  - by destruct (String.eqb_spec k k').
  - destruct (String.eqb_spec k0 k) as [->|Hk0]; simpl.
    + by destruct (String.eqb_spec k k').
    + by rewrite IH.
Qed.

Lemma setProp_same {T : Type} (r : JsRecord T) (k : string) (v : T) :
  getProp r k = Some v -> setProp r k v = r.
Proof.
  induction r as [|[k0 v0] r IH]; simpl; [done|].
  destruct (String.eqb_spec k0 k) as [->|Hne].
  - by intros [= ->].
  - intros Hget. by rewrite IH.
Qed.

Lemma keys_setProp {T1 T2 : Type} (r1 : JsRecord T1) (r2 : JsRecord T2)
    (k : string) (v1 : T1) (v2 : T2) :
  keys r1 = keys r2 -> keys (setProp r1 k v1) = keys (setProp r2 k v2).
Proof.
  revert r2. induction r1 as [|[k1 w1] r1 IH]; intros [|[k2 w2] r2] Hk;
    try discriminate Hk; [done|].
  unfold keys in Hk. simpl in Hk. injection Hk as -> Hk. simpl.
  destruct (String.eqb_spec k2 k) as [->|Hne]; unfold keys in *; simpl.
  - by rewrite Hk.
  - f_equal. by apply IH.
Qed.

Lemma spread_untouched {T : Type} (a b : JsRecord T) (k : string) :
  k ∉ keys b -> getProp (spread a b) k = getProp a k.
Proof.
  revert a. induction b as [|[k0 v0] b IH]; intros a Hk; [done|].
  unfold keys in Hk. simpl in Hk. apply not_elem_of_cons in Hk as [Hne Hk].
  unfold spread in *. simpl. rewrite IH by done. by apply getProp_setProp_ne.
Qed.

(** After a spread, every property of the second object reads as
    given there. *)
Lemma spread_lookup {T : Type} (a b : JsRecord T) (k : string) (v : T) :
  NoDup (keys b) -> (k, v) ∈ b -> getProp (spread a b) k = Some v.
Proof.
  revert a. induction b as [|[k0 v0] b IH]; intros a Hnd Hin;
    [by apply elem_of_nil in Hin|].
  unfold keys in Hnd. simpl in Hnd. apply NoDup_cons in Hnd as [Hk0 Hnd].
  apply elem_of_cons in Hin as [Heq|Hin].
  - inversion Heq; subst.
    change (spread a ((k0, v0) :: b)) with (spread (setProp a k0 v0) b).
    rewrite spread_untouched by done. apply getProp_setProp_eq.
  - change (spread a ((k0, v0) :: b)) with (spread (setProp a k0 v0) b).
    by apply IH.
Qed.

Lemma spread_idempotent {T : Type} (a b : JsRecord T) :
  NoDup (keys b) -> spread (spread a b) b = spread a b.
Proof.
  intros Hnd.
  assert (forall b', (forall kv, kv ∈ b' -> kv ∈ b) ->
                     spread (spread a b) b' = spread a b) as Hgen.
  { induction b' as [|[k v] b' IH]; intros Hsub; [done|].
    change (spread (spread a b) ((k, v) :: b'))
      with (spread (setProp (spread a b) k v) b').
    rewrite setProp_same.
    - apply IH. intros kv Hkv. apply Hsub. by apply list_elem_of_further.
    - apply spread_lookup; [done|]. apply Hsub. apply list_elem_of_here. }
  by apply Hgen.
Qed.

Lemma getProp_elem {T : Type} (r : JsRecord T) (k : string) (v : T) :
  getProp r k = Some v -> (k, v) ∈ r.
Proof.
  induction r as [|[k0 v0] r IH]; simpl; [done|].
  destruct (String.eqb_spec k0 k) as [->|Hne].
  - intros [= ->]. apply list_elem_of_here.
  - intros Hget. apply list_elem_of_further. by apply IH.
Qed.

(** ** The order of [toSorted] *)

Lemma string_compare_trans (a b c : string) :
  String.compare a b <> Gt -> String.compare b c <> Gt -> String.compare a c <> Gt.
Proof.
  revert b c. induction a as [|x a IH]; intros [|y b] [|z c]; simpl; try done.
  unfold Ascii.compare.
  destruct (N.compare_spec (N_of_ascii x) (N_of_ascii y)) as [Hxy|Hxy|Hxy];
    destruct (N.compare_spec (N_of_ascii y) (N_of_ascii z)) as [Hyz|Hyz|Hyz];
    destruct (N.compare_spec (N_of_ascii x) (N_of_ascii z)) as [Hxz|Hxz|Hxz];
    try done; try lia.
  apply IH.
Qed.

#[global] Instance codeUnitLe_trans : Transitive codeUnitLe.
Proof.
  intros a b c. unfold codeUnitLe, String.leb. intros Hab Hbc.
  pose proof (string_compare_trans a b c) as Htrans.
  destruct (String.compare a b), (String.compare b c), (String.compare a c);
    try done; exfalso; by apply Htrans.
Qed.

#[global] Instance codeUnitLe_total : Total codeUnitLe.
Proof. intros a b. apply String.leb_total. Qed.

#[global] Instance codeUnitLe_antisym : AntiSymm eq codeUnitLe.
Proof. intros a b. apply String.leb_antisym. Qed.

(** Sorting forgets the order the ids came in. *)
Lemma sortedJoin_Permutation (ids1 ids2 : list string) :
  ids1 ≡ₚ ids2 -> sortedJoin ids1 = sortedJoin ids2.
Proof.
  intros Hperm. unfold sortedJoin. f_equal.
  apply (Sorted_unique codeUnitLe); try apply _.
  - apply Sorted_merge_sort; apply _.
  - apply Sorted_merge_sort; apply _.
  - by rewrite !merge_sort_Permutation.
Qed.

(** ** More on the style manager *)

Lemma keys_fromEntries {T1 T2 : Type} (f : string -> T1) (g : string -> T2)
    (ks : list string) :
  keys (fromEntries (map (fun k => (k, f k)) ks))
  = keys (fromEntries (map (fun k => (k, g k)) ks)).
Proof.
  unfold fromEntries.
  assert (forall (acc1 : JsRecord T1) (acc2 : JsRecord T2),
            keys acc1 = keys acc2 ->
            keys (fold_left (fun r kv => setProp r (fst kv) (snd kv))
                    (map (fun k => (k, f k)) ks) acc1)
            = keys (fold_left (fun r kv => setProp r (fst kv) (snd kv))
                      (map (fun k => (k, g k)) ks) acc2)) as Hgen.
  { induction ks as [|k ks IH]; intros acc1 acc2 Hacc; [done|].
    simpl. apply IH. by apply keys_setProp. }
  by apply Hgen.
Qed.

(** X18: in an action built by [getUpdateStyleAction], the two halves of
    every target's change list the same properties in the same order,
    and every [updated] entry has the type asked for and the value
    given for its property (the empty string for an [undefined] one). *)
Theorem built_change_is_aligned (m : StyleManager.t)
    (styles : JsRecord (option string)) (domIds : list string) (ty : StyleChangeType)
    (t : StyleActionTarget StyleChange) :
  t ∈ styleTargets (StyleManager.getUpdateStyleAction m styles domIds ty) ->
  keys (original (change t)) = keys (updated (change t))
  /\ forall key v, (key, v) ∈ updated (change t) ->
       type v = ty
       /\ key ∈ keys styles
       /\ value v = match getProp styles key with
                    | Some (Some s) => s
                    | _ => ""
                    end.
Proof.
  intros Ht. unfold StyleManager.getUpdateStyleAction in Ht.
  destruct (StyleManager.editorEngine m) as [engine|]; [|by apply elem_of_nil in Ht].
  simpl in Ht. apply list_elem_of_fmap in Ht as (selectedEl & -> & _). simpl.
  split.
  - apply (keys_fromEntries
             (fun style => mkStyleChange (StyleManager.getFreshStyleValue selectedEl style)
                             Value)
             (fun style =>
                mkStyleChange
                  match getProp styles style with
                  | Some (Some v) => v
                  | _ => ""
                  end
                  match ty with Custom => Custom | Value => Value end)).
  - intros key v Hkv. apply fromEntries_elem in Hkv.
    apply list_elem_of_fmap in Hkv as (style & Heq & Hstyle). inversion Heq; subst.
    simpl. split; [by destruct ty|]. split; done.
Qed.

(** X19: the targets of an action built by [getUpdateStyleAction] are the
    selected elements, in selection order, kept only if listed in
    [domIds] when [domIds] is not empty: [domIds] narrows the selection
    and never adds to it.  With no engine there is no target. *)
Theorem built_targets_follow_selection (m : StyleManager.t)
    (styles : JsRecord (option string)) (domIds : list string) (ty : StyleChangeType) :
  let targets := styleTargets (StyleManager.getUpdateStyleAction m styles domIds ty) in
  match StyleManager.editorEngine m with
  | None => targets = []
  | Some engine =>
      map (fun t => domId (target t)) targets
      = List.filter (fun d => (length domIds =? 0)%nat || StyleManager.includes domIds d)
          (map DomElement.domId (StyleManager.selected engine))
  end.
Proof.
  unfold StyleManager.getUpdateStyleAction.
  destruct (StyleManager.editorEngine m) as [engine|]; [|done].
  simpl. rewrite map_map. simpl.
  destruct domIds as [|d domIds]; simpl.
  - induction (StyleManager.selected engine) as [|el els IH]; [done|].
    simpl. by rewrite <- IH.
  - induction (StyleManager.selected engine) as [|el els IH]; [done|].
    rewrite filter_cons. simpl.
    destruct (String.eqb (DomElement.domId el) d
              || existsb (String.eqb (DomElement.domId el)) domIds) eqn:Hin.
    + rewrite decide_True by (by apply Is_true_true). simpl.
      unfold StyleManager.includes in *. by rewrite Hin, IH.
    + rewrite decide_False by (by apply Is_true_false).
      unfold StyleManager.includes in *. by rewrite Hin.
Qed.

(** X20: the default of a property the table lists is the table's value; the
    fallback ['initial'] is returned for the properties the table does
    not list, and only for them. *)
Theorem default_is_table_value (style : string) :
  (forall v, getProp StyleManager.defaults style = Some v ->
     StyleManager.getDefaultStyleValue style = v)
  /\ (StyleManager.getDefaultStyleValue style = "initial"
      <-> getProp StyleManager.defaults style = None).
Proof.
  assert (forall v, getProp StyleManager.defaults style = Some v ->
                    v <> "" /\ v <> "initial") as Htable.
  { intros v Hget. apply getProp_elem, list_elem_of_In in Hget.
    assert (forallb (fun kv : string * string =>
                       negb (String.eqb (snd kv) "")
                       && negb (String.eqb (snd kv) "initial"))
              StyleManager.defaults = true) as Hall by reflexivity.
    rewrite forallb_forall in Hall. specialize (Hall (style, v) Hget). simpl in Hall.
    by destruct (String.eqb_spec v ""), (String.eqb_spec v "initial"). }
  unfold StyleManager.getDefaultStyleValue.
  destruct (getProp StyleManager.defaults style) as [v|] eqn:Hget; simpl.
  - destruct (Htable v eq_refl) as [Hne Hni].
    destruct (String.eqb_spec v "") as [?|_]; [done|].
    split; [by intros ? [= ->]|]. split; [done|discriminate].
  - split; [discriminate|done].
Qed.

(** X21: which cached value [getFreshStyleValue] takes: a non-empty defined
    value first; a non-empty computed value when the element has no
    defined value at all; and the default when the defined value is the
    empty string, even if a computed value exists. *)
Theorem fresh_value_precedence (selectedEl : DomElement.t) (st : DomElement.styles_t)
    (style : string) :
  DomElement.styles selectedEl = Some st ->
  (forall v, getProp (DomElement.defined st) style = Some v -> v <> "" ->
     StyleManager.getFreshStyleValue selectedEl style = v)
  /\ (forall v, getProp (DomElement.defined st) style = None ->
        getProp (DomElement.computed st) style = Some v -> v <> "" ->
        StyleManager.getFreshStyleValue selectedEl style = v)
  /\ (getProp (DomElement.defined st) style = Some "" ->
        StyleManager.getFreshStyleValue selectedEl style
        = StyleManager.getDefaultStyleValue style).
Proof.
  intros Hst. unfold StyleManager.getFreshStyleValue. rewrite Hst.
  split; [|split].
  - intros v -> Hne. simpl. by destruct (String.eqb_spec v "").
  - intros v -> -> Hne. simpl. by destruct (String.eqb_spec v "").
  - by intros ->.
Qed.

(** ** The cached styles *)

Section CacheFacts.

Variable DOMRect : Type.
Variable emptyRect : DOMRect.
Variable rectOf : DomElement.t -> option DOMRect.
Variable parentRectOf : DomElement.t -> option DOMRect.

Local Abbreviation Cache := (StyleCache.t DOMRect).
Local Abbreviation updateStyleNoAction := (StyleCache.updateStyleNoAction DOMRect).
Local Abbreviation styleOf := (StyleCache.styleOf DOMRect emptyRect rectOf parentRectOf).
Local Abbreviation onSelectedElementsChanged :=
  (StyleCache.onSelectedElementsChanged DOMRect emptyRect rectOf parentRectOf).

(** X22: [updateStyleNoAction] keeps the entries of the cache: the same
    element ids before and after.  In every cached style the properties
    given are assigned, each reading as given afterwards, while the
    [defined] and [computed] styles and the two rectangles are left as
    they were. *)
Theorem updateStyleNoAction_assigns (css : JsRecord (option string)) (s : Cache)
    (id : string) :
  NoDup (keys css) ->
  match StyleCache.domIdToStyle DOMRect (updateStyleNoAction css s) !! id with
  | None => StyleCache.domIdToStyle DOMRect s !! id = None
  | Some c' =>
      exists c,
        StyleCache.domIdToStyle DOMRect s !! id = Some c
        /\ StyleCache.defined (StyleCache.styles DOMRect c')
           = StyleCache.defined (StyleCache.styles DOMRect c)
        /\ StyleCache.computed (StyleCache.styles DOMRect c')
           = StyleCache.computed (StyleCache.styles DOMRect c)
        /\ StyleCache.rect DOMRect c' = StyleCache.rect DOMRect c
        /\ StyleCache.parentRect DOMRect c' = StyleCache.parentRect DOMRect c
        /\ (forall key v, (key, v) ∈ css ->
              getProp (StyleCache.assigned (StyleCache.styles DOMRect c')) key = Some v)
        /\ (forall key, key ∉ keys css ->
              getProp (StyleCache.assigned (StyleCache.styles DOMRect c')) key
              = getProp (StyleCache.assigned (StyleCache.styles DOMRect c)) key)
  end.
Proof.
  intros Hnd. unfold StyleCache.updateStyleNoAction. simpl. rewrite lookup_fmap.
  destruct (StyleCache.domIdToStyle DOMRect s !! id) as [c|]; simpl; [|done].
  exists c. repeat split.
  - intros key v Hin. by apply spread_lookup.
  - intros key Hkey. by apply spread_untouched.
Qed.

(** X23: applying the same properties a second time changes nothing. *)
Theorem updateStyleNoAction_idempotent (css : JsRecord (option string)) (s : Cache) :
  NoDup (keys css) ->
  updateStyleNoAction css (updateStyleNoAction css s) = updateStyleNoAction css s.
Proof.
  intros Hnd.
  assert (forall c, StyleCache.withStyles DOMRect css (StyleCache.withStyles DOMRect css c)
                    = StyleCache.withStyles DOMRect css c) as Hidem.
  { intros c. unfold StyleCache.withStyles. simpl. by rewrite spread_idempotent. }
  unfold StyleCache.updateStyleNoAction. simpl. f_equal.
  - destruct (StyleCache.selectedStyle DOMRect s); [|done]. by rewrite Hidem.
  - rewrite <- map_fmap_compose. apply map_fmap_ext. intros k c _. apply Hidem.
Qed.

Lemma cache_fold_other (els : list DomElement.t) (m : gmap string (StyleCache.SelectedStyle DOMRect))
    (id : string) :
  id ∉ map DomElement.domId els ->
  fold_left (fun m0 el => <[DomElement.domId el := styleOf el]> m0) els m !! id
  = m !! id.
Proof.
  revert m. induction els as [|el els IH]; intros m Hid; [done|].
  simpl in *. apply not_elem_of_cons in Hid as [Hne Hid].
  rewrite IH by done. by rewrite lookup_insert_ne.
Qed.

Lemma cache_fold_lookup (els : list DomElement.t) (m : gmap string (StyleCache.SelectedStyle DOMRect))
    (el : DomElement.t) :
  el ∈ els ->
  exists el', el' ∈ els
    /\ DomElement.domId el' = DomElement.domId el
    /\ fold_left (fun m0 x => <[DomElement.domId x := styleOf x]> m0) els m
         !! DomElement.domId el = Some (styleOf el')
    /\ (NoDup (map DomElement.domId els) -> el' = el).
Proof.
  revert m el. induction els as [|x els IH]; intros m el Hin;
    [by apply elem_of_nil in Hin|].
  simpl.
  destruct (decide (DomElement.domId el ∈ map DomElement.domId els)) as [Hlater|Hnot].
  - apply list_elem_of_fmap in Hlater as (y & Hy & Hyin).
    destruct (IH (<[DomElement.domId x := styleOf x]> m) y Hyin)
      as (el' & Hel' & Hid & Hlook & Huniq).
    exists el'. split; [by apply list_elem_of_further|]. split; [congruence|].
    split; [by rewrite Hy|].
    intros Hnd. apply NoDup_cons in Hnd as [Hx Hnd]. specialize (Huniq Hnd). subst el'.
    apply elem_of_cons in Hin as [->|Hin].
    + destruct Hx. rewrite Hy. by apply list_elem_of_fmap_2.
    + apply (NoDup_fmap_1 DomElement.domId) in Hnd as Hinj.
      apply list_elem_of_lookup in Hin as [i Hi].
      apply list_elem_of_lookup in Hyin as [j Hj].
      assert (i = j) as ->.
      { apply (NoDup_lookup (map DomElement.domId els) i j (DomElement.domId el));
          [done| |]; rewrite list_lookup_fmap.
        - by rewrite Hi.
        - rewrite Hj. simpl. by rewrite Hy. }
      congruence.
  - apply elem_of_cons in Hin as [->|Hin].
    + exists x. split; [apply list_elem_of_here|]. split; [done|].
      split; [|done]. rewrite cache_fold_other by done. apply lookup_insert_eq.
    + destruct Hnot. by apply list_elem_of_fmap_2.
Qed.

(** X24: after a change of selection to a non-empty list, the selected style
    is the style of the first element, and the cache has an entry for
    every selected element: the style of that element when the ids are
    distinct, of an element with the same id in any case.  Elements that
    are not selected have no entry. *)
Theorem selection_fills_cache (first : DomElement.t) (others : list DomElement.t)
    (s : Cache) :
  let s' := onSelectedElementsChanged (first :: others) s in
  StyleCache.selectedStyle DOMRect s' = Some (styleOf first)
  /\ (forall el, el ∈ first :: others ->
        exists el', el' ∈ first :: others
          /\ DomElement.domId el' = DomElement.domId el
          /\ StyleCache.domIdToStyle DOMRect s' !! DomElement.domId el
             = Some (styleOf el')
          /\ (NoDup (map DomElement.domId (first :: others)) -> el' = el))
  /\ (forall id, id ∉ map DomElement.domId (first :: others) ->
        StyleCache.domIdToStyle DOMRect s' !! id = None).
Proof.
  simpl. split; [done|]. split.
  - intros el Hel.
    destruct (cache_fold_lookup (first :: others) ∅ el Hel)
      as (el' & Hel' & Hid & Hlook & Huniq).
    exists el'. done.
  - intros id Hid.
    pose proof (cache_fold_other (first :: others) ∅ id Hid) as Hother.
    simpl in Hother. by rewrite Hother.
Qed.

(** After a change of selection to nothing, the cache is empty, but the
    selected style is the one that was there before: it is not reset. *)
Theorem empty_selection_keeps_selected_style (s : Cache) :
  let s' := onSelectedElementsChanged [] s in
  StyleCache.domIdToStyle DOMRect s' = ∅
  /\ StyleCache.selectedStyle DOMRect s' = StyleCache.selectedStyle DOMRect s
  /\ StyleCache.prevSelected DOMRect s' = ""
  /\ StyleManager.mode (StyleCache.manager DOMRect s')
     = (if String.eqb "" (StyleCache.prevSelected DOMRect s)
        then StyleManager.mode (StyleCache.manager DOMRect s)
        else StyleManager.RootMode).
Proof. repeat split. Qed.

(** X25: selecting the same elements again, in whatever order, keeps the
    mode; the manager remembers the selection by its sorted ids. *)
Theorem reselection_keeps_mode (els1 els2 : list DomElement.t) (s : Cache) :
  map DomElement.domId els1 ≡ₚ map DomElement.domId els2 ->
  let s1 := onSelectedElementsChanged els1 s in
  StyleCache.prevSelected DOMRect s1 = sortedJoin (map DomElement.domId els1)
  /\ forall chosen,
       let s2 :=
         onSelectedElementsChanged els2
           (StyleCache.mk DOMRect
              (StyleManager.mk
                 (StyleManager.editorEngine (StyleCache.manager DOMRect s1)) chosen)
              (StyleCache.selectedStyle DOMRect s1)
              (StyleCache.domIdToStyle DOMRect s1)
              (StyleCache.prevSelected DOMRect s1)) in
       StyleManager.mode (StyleCache.manager DOMRect s2) = chosen
       /\ StyleCache.prevSelected DOMRect s2 = StyleCache.prevSelected DOMRect s1.
Proof.
  intros Hperm.
  assert (forall els s0, StyleCache.prevSelected DOMRect (onSelectedElementsChanged els s0)
                         = sortedJoin (map DomElement.domId els)) as Hprev
    by (by intros [|el els] s0).
  assert (forall els s0,
            StyleManager.mode (StyleCache.manager DOMRect (onSelectedElementsChanged els s0))
            = if String.eqb (sortedJoin (map DomElement.domId els))
                   (StyleCache.prevSelected DOMRect s0)
              then StyleManager.mode (StyleCache.manager DOMRect s0)
              else StyleManager.RootMode) as Hmode
    by (by intros [|el els] s0).
  intros s1. split; [apply Hprev|]. intros chosen s2. subst s2.
  rewrite Hmode, Hprev.
  cbn [StyleCache.prevSelected StyleCache.manager StyleManager.mode].
  subst s1. rewrite Hprev, (sortedJoin_Permutation _ _ Hperm), String.eqb_refl. done.
Qed.

End CacheFacts.

(** ** The update commands *)

Section CommandFacts.

Variable World : Type.
Variable FrameData : Type.
Variable frames_get : World -> string -> option FrameData.
Variable view : FrameData -> ViewCall -> World -> ViewResult * World.
Variable getColorByName : string -> option string.
Variable updateTransactionActions :
  list (Action loc) -> Action loc -> list (Action loc).
Variable DOMRect : Type.

Local Abbreviation App := (Editing.App World DOMRect).
Local Abbreviation applyStyles :=
  (Editing.applyStyles World FrameData frames_get view getColorByName
     updateTransactionActions DOMRect).

(** X26: a style command issued while nothing is selected still goes through
    [run]: outside a transaction an [UpdateStyle] action without targets
    is put on the undo stack and written to the code writer, the redo
    stack is emptied, and a refresh is made with no snapshot.  No view
    is called and no object is created. *)
Theorem style_command_without_selection (css : JsRecord (option string))
    (domIds : list string) (ty : StyleChangeType) (app : App)
    (engine : StyleManager.EditorEngine) :
  StyleManager.editorEngine (StyleCache.manager DOMRect (Editing.style World DOMRect app))
  = Some engine ->
  StyleManager.selected engine = [] ->
  History.inTransaction (ActionManager.history (Editing.engine World DOMRect app))
  = History.NotInTransaction ->
  exists app',
    applyStyles css domIds ty app = Some app'
    /\ History.undoStack (ActionManager.history (Editing.engine World DOMRect app'))
       = History.undoStack (ActionManager.history (Editing.engine World DOMRect app))
           ++ [UpdateStyle []]
    /\ History.redoStack (ActionManager.history (Editing.engine World DOMRect app')) = []
    /\ History.effects (ActionManager.history (Editing.engine World DOMRect app'))
       = History.effects (ActionManager.history (Editing.engine World DOMRect app))
           ++ [History.CodeWrite (UpdateStyle []); History.SendAnalytics "style action"]
    /\ ActionManager.editor (Editing.engine World DOMRect app')
       = ActionManager.emit (RefreshDomElement [])
           (ActionManager.editor (Editing.engine World DOMRect app)).
Proof.
  intros Hengine Hsel Hout. unfold Editing.applyStyles. rewrite Hengine.
  assert (StyleManager.getUpdateStyleAction
            (StyleCache.manager DOMRect (Editing.style World DOMRect app)) css domIds ty
          = UpdateStyle []) as ->.
  { unfold StyleManager.getUpdateStyleAction. rewrite Hengine, Hsel.
    by destruct (0 <? length domIds)%nat. }
  simpl. eexists. split; [reflexivity|].
  cbn [Editing.engine]. unfold ActionManager.run.
  cbn [ActionManager.history ActionManager.editor].
  destruct (push_not_in_transaction updateTransactionActions (UpdateStyle [])
              (ActionManager.history (Editing.engine World DOMRect app)) Hout)
    as (Hu & Hr & _).
  split; [exact Hu|]. split; [exact Hr|]. split.
  - unfold History.push, History.push_enter. rewrite Hout. simpl.
    by rewrite <- app_assoc.
  - destruct (ActionManager.editor (Editing.engine World DOMRect app)); done.
Qed.

End CommandFacts.

(** ** The theorems above on sample inputs *)

Lemma undo_then_redo_witness :
  let h := History.mkHistory [Fixture.red; Fixture.blue] [Fixture.green]
             History.NotInTransaction [] [] in
  exists h1 h2,
    History.undo id Helpers.updateTransactionActions h = (Some Fixture.blue, h1)
    /\ History.redo id Helpers.updateTransactionActions h1 = (Some Fixture.blue, h2)
    /\ History.undoStack h2 = [Fixture.red; Fixture.blue]
    /\ History.redoStack h2 = [Fixture.green].
Proof.
  intros h.
  destruct (undo_then_redo id id Helpers.updateTransactionActions h [Fixture.red]
              Fixture.blue eq_refl eq_refl) as (h1 & h2 & Hu & Hr & Hus & Hrs & _).
  exists h1, h2. repeat split; assumption.
Defined.

Lemma redo_then_undo_witness :
  let h := History.mkHistory [Fixture.red] [Fixture.green; Fixture.blue]
             History.NotInTransaction [] [] in
  exists h1 h2,
    History.redo id Helpers.updateTransactionActions h = (Some Fixture.blue, h1)
    /\ History.undo id Helpers.updateTransactionActions h1 = (Some Fixture.blue, h2)
    /\ History.undoStack h2 = [Fixture.red]
    /\ History.redoStack h2 = [Fixture.green; Fixture.blue].
Proof.
  intros h.
  destruct (redo_then_undo id id Helpers.updateTransactionActions h [Fixture.green]
              Fixture.blue eq_refl eq_refl) as (h1 & h2 & Hr & Hu & Hus & Hrs & _).
  exists h1, h2. repeat split; assumption.
Defined.

Lemma nothing_to_undo_or_redo_witness :
  let h : History.HistoryManager StyleChange :=
    History.mkHistory [] [] (History.InTransaction []) [] [] in
  (exists h', History.undo id Helpers.updateTransactionActions h = (None, h')
     /\ History.undoStack h' = [] /\ History.redoStack h' = [])
  /\ (exists h', History.redo id Helpers.updateTransactionActions h = (None, h')
     /\ History.redoStack h' = [] /\ History.undoStack h' = []).
Proof.
  intros h.
  destruct (nothing_to_undo_or_redo id id Helpers.updateTransactionActions h eq_refl)
    as [Hu Hr].
  split.
  - destruct (Hu eq_refl) as (h' & H1 & H2 & H3 & _). exists h'. repeat split; assumption.
  - destruct (Hr eq_refl) as (h' & H1 & H2 & H3 & _). exists h'. repeat split; assumption.
Defined.

Lemma buffered_pushes_are_silent_witness :
  let h := History.mkHistory [Fixture.red] [Fixture.green] (History.InTransaction [])
             [] [] in
  let h' :=
    fold_left (fun h0 a => History.push Helpers.updateTransactionActions a h0)
      [Fixture.blue; Fixture.green] h in
  History.undoStack h' = [Fixture.red]
  /\ History.redoStack h' = [Fixture.green]
  /\ History.effects h' = []
  /\ History.isInTransaction h' = true.
Proof.
  intros h h'.
  apply (buffered_pushes_are_silent Helpers.updateTransactionActions
           [Fixture.blue; Fixture.green] [] h eq_refl).
Defined.

Lemma commit_writes_each_action_once_witness :
  let h := History.mkHistory [] [Fixture.green]
             (History.InTransaction [Fixture.red; Fixture.blue]) [] [] in
  History.effects (History.commitTransaction Helpers.updateTransactionActions h)
  = [ History.CodeWrite Fixture.red; History.SendAnalytics "style action";
      History.CodeWrite Fixture.blue; History.SendAnalytics "style action" ]
  /\ History.redoStack (History.commitTransaction Helpers.updateTransactionActions h)
     = [].
Proof.
  intros h.
  apply (commit_writes_each_action_once Helpers.updateTransactionActions h
           [Fixture.red; Fixture.blue] eq_refl).
Defined.

Lemma undo_in_open_transaction_witness :
  let h := History.mkHistory [Fixture.red] [Fixture.green]
             (History.InTransaction [Fixture.blue; Fixture.green]) [] [] in
  History.undo id Helpers.updateTransactionActions h
  = (Some Fixture.blue,
     History.mkHistory [Fixture.red] [Fixture.blue] History.NotInTransaction
       [History.CodeWrite Fixture.blue] [(Fixture.blue, [Fixture.green])]).
Proof.
  intros h.
  apply (undo_in_open_transaction id Helpers.updateTransactionActions h Fixture.blue
           [Fixture.green] eq_refl).
Defined.

Lemma undone_action_lost_on_resume_witness :
  let h := History.mkHistory [Fixture.red] []
             (History.InTransaction [Fixture.blue; Fixture.green]) [] [] in
  exists h1,
    History.undo id Helpers.updateTransactionActions h = (Some Fixture.blue, h1)
    /\ History.redoStack h1 = [Fixture.blue]
    /\ History.undoStack (History.resume Helpers.updateTransactionActions h1)
       = [Fixture.red; Fixture.green]
    /\ History.redoStack (History.resume Helpers.updateTransactionActions h1) = [].
Proof.
  intros h.
  destruct (undone_action_lost_on_resume id Helpers.updateTransactionActions h
              Fixture.blue Fixture.green [] eq_refl eq_refl)
    as (h1 & Hu & Hr & Hus & Hrs & _).
  exists h1. repeat split; assumption.
Defined.

Lemma detached_commit_catches_up_witness :
  let h := History.mkHistory [Fixture.red] [Fixture.green]
             (History.InTransaction [Fixture.blue; Fixture.green]) [] [] in
  Nat.iter 2 (History.resume Helpers.updateTransactionActions)
    (History.commitTransaction_detached Helpers.updateTransactionActions h)
  = History.commitTransaction Helpers.updateTransactionActions h.
Proof.
  intros h.
  apply (detached_commit_catches_up Helpers.updateTransactionActions h
           [Fixture.blue; Fixture.green] eq_refl eq_refl).
Defined.

Lemma sample_view_quiet : quiet Sample.view.
Proof.
  intros frame call w err. unfold Sample.view.
  destruct call as [d c|e l|l|d i|d c|p c ch|p c]; simpl;
    try discriminate;
    match goal with
    | |- context [String.eqb ?a ?b] => destruct (String.eqb a b); discriminate
    end.
Qed.

Lemma dispatch_completes_witness :
  exists st', Sample.dispatch Fixture.live Fixture.editor = ActionManager.Completed tt st'.
Proof.
  apply (dispatch_completes unit string Sample.frames_get Sample.view
           Sample.getColorByName Fixture.live Fixture.editor sample_view_quiet).
Defined.

Lemma dispatch_store_frame_witness :
  ActionManager.store (ActionManager.final (Sample.dispatch Fixture.live Fixture.editor))
    !! 1%positive
  = Some (mkStyleChange "rgb(0, 0, 0)" Value).
Proof.
  unfold Sample.dispatch.
  rewrite (dispatch_store_frame unit string Sample.frames_get Sample.view
             Sample.getColorByName Fixture.live Fixture.editor 1%positive).
  - vm_compute. reflexivity.
  - right. intros v Hv. vm_compute in Hv. injection Hv as <-. reflexivity.
Defined.

Lemma updateStyle_one_request_per_target_witness :
  let targets :=
    [ mkStyleTarget Sample.targetDetached (mkChange [] []);
      mkStyleTarget Sample.target2 (mkChange [("color", 1%positive)] [("color", 2%positive)]) ] in
  exists evs st',
    ActionManager.updateStyle unit string Sample.frames_get Sample.view
      Sample.getColorByName targets Fixture.editor
    = ActionManager.Completed tt st'
    /\ ActionManager.trace st' = evs ++ [RefreshDomElement (returned evs)]
    /\ styleRequests evs = [("frame-1", "detached"); ("frame-2", "el-2")].
Proof.
  intros targets.
  destruct (updateStyle_one_request_per_target unit string Sample.frames_get
              Sample.view Sample.getColorByName targets Fixture.editor
              sample_view_quiet)
    as (evs & st' & Hdone & Htrace & Hreq & _).
  - intros w t Ht. subst targets.
    apply elem_of_cons in Ht as [->|Ht]; [discriminate|].
    apply list_elem_of_singleton in Ht as ->. discriminate.
  - exists evs, st'. repeat split; assumption.
Defined.


Lemma runner_nothing_to_do_witness :
  let e := ActionManager.mkEngine Sample.history0 Fixture.editor in
  ActionManager.undo unit string Sample.frames_get Sample.view Sample.getColorByName
    id Helpers.updateTransactionActions e = e
  /\ ActionManager.redo unit string Sample.frames_get Sample.view Sample.getColorByName
       id Helpers.updateTransactionActions e = e.
Proof.
  intros e.
  destruct (runner_nothing_to_do unit string Sample.frames_get Sample.view
              Sample.getColorByName id id Helpers.updateTransactionActions e eq_refl)
    as [Hu Hr].
  split; [apply Hu | apply Hr]; reflexivity.
Defined.

Lemma runner_undo_applies_inverse_witness :
  let e :=
    ActionManager.mkEngine
      (History.mkHistory [Fixture.live] [] History.NotInTransaction [] [])
      Fixture.editor in
  let e' :=
    ActionManager.undo unit string Sample.frames_get Sample.view Sample.getColorByName
      id Helpers.updateTransactionActions e in
  History.undoStack (ActionManager.history e') = []
  /\ History.redoStack (ActionManager.history e') = [Fixture.live]
  /\ History.effects (ActionManager.history e')
     = [History.CodeWrite Fixture.live; History.SendAnalytics "undo"].
Proof.
  intros e e'.
  destruct (runner_undo_applies_inverse unit string Sample.frames_get Sample.view
              Sample.getColorByName id Helpers.updateTransactionActions e []
              Fixture.live eq_refl eq_refl) as (Hu & Hr & _ & He).
  split; [exact Hu|]. split; [exact Hr|]. exact He.
Defined.

Lemma built_change_is_aligned_witness :
  let t :=
    mkStyleTarget Sample.target2
      (mkChange
         [("color", mkStyleChange "rgb(0, 0, 0)" Value);
          ("gap", mkStyleChange "initial" Value)]
         [("color", mkStyleChange "primary" Custom);
          ("gap", mkStyleChange "" Custom)]) in
  keys (original (change t)) = keys (updated (change t))
  /\ type (mkStyleChange "" Custom) = Custom.
Proof.
  intros t.
  destruct (built_change_is_aligned Fixture.manager
              [("color", Some "primary"); ("gap", None)] ["el-2"] Custom t)
    as [Hkeys Hentries].
  - vm_compute. apply list_elem_of_here.
  - split; [exact Hkeys|].
    apply (Hentries "gap" (mkStyleChange "" Custom)).
    simpl. apply list_elem_of_further, list_elem_of_here.
Defined.

Lemma default_is_table_value_witness :
  StyleManager.getDefaultStyleValue "fontSize" = "16px"
  /\ StyleManager.getDefaultStyleValue "gap" = "initial".
Proof.
  split.
  - destruct (default_is_table_value "fontSize") as [Htable _].
    apply Htable. reflexivity.
  - destruct (default_is_table_value "gap") as [_ Hinitial].
    apply Hinitial. reflexivity.
Defined.

Lemma fresh_value_precedence_witness :
  StyleManager.getFreshStyleValue Fixture.element "color"
  = StyleManager.getDefaultStyleValue "color"
  /\ StyleManager.getFreshStyleValue Fixture.element "width" = "10px".
Proof.
  destruct (fresh_value_precedence Fixture.element Fixture.elementStyles "color"
              eq_refl) as (_ & _ & Hempty).
  destruct (fresh_value_precedence Fixture.element Fixture.elementStyles "width"
              eq_refl) as (_ & Hcomputed & _).
  split.
  - apply Hempty. reflexivity.
  - apply Hcomputed; [reflexivity | reflexivity | discriminate].
Defined.

Lemma updateStyleNoAction_assigns_witness :
  let s :=
    StyleCache.onSelectedElementsChanged (Z * Z * Z * Z) (0, 0, 0, 0)%Z Fixture.noRect
      Fixture.noRect [Fixture.element] Fixture.cache in
  exists c',
    StyleCache.domIdToStyle (Z * Z * Z * Z)
      (StyleCache.updateStyleNoAction (Z * Z * Z * Z) [("color", Some "red")] s)
      !! "el-1" = Some c'
    /\ getProp (StyleCache.assigned (StyleCache.styles (Z * Z * Z * Z) c')) "color"
       = Some (Some "red")
    /\ StyleCache.defined (StyleCache.styles (Z * Z * Z * Z) c') = [("color", "")].
Proof.
  intros s.
  pose proof (updateStyleNoAction_assigns (Z * Z * Z * Z) [("color", Some "red")] s
                "el-1" (NoDup_singleton _)) as Hassigns.
  destruct (StyleCache.domIdToStyle (Z * Z * Z * Z)
              (StyleCache.updateStyleNoAction (Z * Z * Z * Z) [("color", Some "red")] s)
              !! "el-1") as [c'|].
  - destruct Hassigns as (c & Hc & Hdef & _ & _ & _ & Hset & _).
    exists c'. split; [reflexivity|]. split; [apply Hset, list_elem_of_here|].
    rewrite Hdef. vm_compute in Hc. injection Hc as <-. reflexivity.
  - vm_compute in Hassigns. discriminate Hassigns.
Defined.

Lemma updateStyleNoAction_idempotent_witness :
  let s :=
    StyleCache.onSelectedElementsChanged (Z * Z * Z * Z) (0, 0, 0, 0)%Z Fixture.noRect
      Fixture.noRect [Fixture.element] Fixture.cache in
  let css := [("color", Some "red"); ("width", None)] in
  StyleCache.updateStyleNoAction (Z * Z * Z * Z) css
    (StyleCache.updateStyleNoAction (Z * Z * Z * Z) css s)
  = StyleCache.updateStyleNoAction (Z * Z * Z * Z) css s.
Proof.
  intros s css.
  apply (updateStyleNoAction_idempotent (Z * Z * Z * Z) css s).
  apply NoDup_cons. split; [|apply NoDup_singleton].
  intros Hin. apply list_elem_of_singleton in Hin. discriminate Hin.
Defined.

Lemma selection_fills_cache_witness :
  let s' :=
    StyleCache.onSelectedElementsChanged (Z * Z * Z * Z) (0, 0, 0, 0)%Z Fixture.noRect
      Fixture.noRect [Fixture.element; Fixture.element2] Fixture.cache in
  StyleCache.selectedStyle (Z * Z * Z * Z) s'
  = Some (StyleCache.styleOf (Z * Z * Z * Z) (0, 0, 0, 0)%Z Fixture.noRect
            Fixture.noRect Fixture.element)
  /\ StyleCache.domIdToStyle (Z * Z * Z * Z) s' !! "el-9" = None.
Proof.
  intros s'.
  destruct (selection_fills_cache (Z * Z * Z * Z) (0, 0, 0, 0)%Z Fixture.noRect
              Fixture.noRect Fixture.element [Fixture.element2] Fixture.cache)
    as (Hsel & _ & Hother).
  split; [exact Hsel|]. apply Hother. simpl.
  intros Hin. apply elem_of_cons in Hin as [Heq|Hin]; [discriminate Heq|].
  apply list_elem_of_singleton in Hin. discriminate Hin.
Defined.

Lemma reselection_keeps_mode_witness :
  let s1 :=
    StyleCache.onSelectedElementsChanged (Z * Z * Z * Z) (0, 0, 0, 0)%Z Fixture.noRect
      Fixture.noRect [Fixture.element; Fixture.element2] Fixture.cache in
  let s2 :=
    StyleCache.onSelectedElementsChanged (Z * Z * Z * Z) (0, 0, 0, 0)%Z Fixture.noRect
      Fixture.noRect [Fixture.element2; Fixture.element]
      (StyleCache.mk (Z * Z * Z * Z)
         (StyleManager.mk
            (StyleManager.editorEngine (StyleCache.manager (Z * Z * Z * Z) s1))
            StyleManager.InstanceMode)
         (StyleCache.selectedStyle (Z * Z * Z * Z) s1)
         (StyleCache.domIdToStyle (Z * Z * Z * Z) s1)
         (StyleCache.prevSelected (Z * Z * Z * Z) s1)) in
  StyleManager.mode (StyleCache.manager (Z * Z * Z * Z) s2) = StyleManager.InstanceMode.
Proof.
  intros s1 s2.
  destruct (reselection_keeps_mode (Z * Z * Z * Z) (0, 0, 0, 0)%Z Fixture.noRect
              Fixture.noRect [Fixture.element; Fixture.element2]
              [Fixture.element2; Fixture.element] Fixture.cache)
    as [_ Hmode].
  - simpl. apply perm_swap.
  - apply (Hmode StyleManager.InstanceMode).
Defined.

Lemma style_command_without_selection_witness :
  let app :=
    Editing.mkApp unit (Z * Z * Z * Z)
      (StyleCache.mk (Z * Z * Z * Z)
         (StyleManager.mk (Some (StyleManager.mkEngine [])) StyleManager.RootMode)
         None ∅ "")
      (ActionManager.mkEngine Sample.history0 Fixture.editor) in
  exists app',
    Editing.update unit string Sample.frames_get Sample.view Sample.getColorByName
      Helpers.updateTransactionActions (Z * Z * Z * Z) "color" "red" app
    = Some app'
    /\ History.undoStack
         (ActionManager.history (Editing.engine unit (Z * Z * Z * Z) app'))
       = [UpdateStyle []].
Proof.
  intros app.
  destruct (style_command_without_selection unit string Sample.frames_get Sample.view
              Sample.getColorByName Helpers.updateTransactionActions (Z * Z * Z * Z)
              [("color", Some "red")] [] Value app (StyleManager.mkEngine [])
              eq_refl eq_refl eq_refl) as (app' & Hrun & Hundo & _).
  exists app'. split; [exact Hrun | exact Hundo].
Defined.
